(** * genai: the SQL safety gate, the schema introspector and the two
      AI-driven request handlers, embedded and verified.

    Source files embedded here:
    - [internal/database/db.go]   ([IsQuerySafe], [GetSchema], [GetTables])
    - [internal/gemini/gemini.go] ([getResponseText], [NaturalLanguageToSQL],
      [GenerateDataSQL])
    - [cmd/web/main.go]           ([generateData], [query], [downloadCSV],
      [downloadZip], [fetchingTableData], [listTables])

    Go strings are byte sequences; they are modelled as [string] (a list of
    8-bit [ascii]).  The backing store and the text generator are external
    collaborators: they appear as the fields of two interfaces ([Backend],
    [Generator]) that the handlers are written against. *)

From Stdlib Require Import Ascii ZArith Lia DecimalString.
From Stdlib Require Import Sorting.Sorted Sorting.Permutation.
From stdpp Require Import base option list sorting strings gmap.

#[local] Arguments String.append !_ _ / : simpl nomatch.

(** ** Go's package [strings], on byte strings *)

Module Strings.

(** [unicode.ToUpper] on the bytes below 128: the letters [a]..[z] go to
    [A]..[Z], every other byte is kept.  (On a rune above 127 Go's mapping
    yields a rune above 127 again, except U+0131 and U+017F, which yield
    [I] and [S]; neither letter occurs in a denylisted keyword.) *)
Definition isLower (c : ascii) : bool :=
  (97 <=? nat_of_ascii c)%nat && (nat_of_ascii c <=? 122)%nat.

Definition upperByte (c : ascii) : ascii :=
  if isLower c then ascii_of_nat (nat_of_ascii c - 32) else c.

Fixpoint ToUpper (s : string) : string :=
  match s with
  | EmptyString => EmptyString
  | String c s' => String (upperByte c) (ToUpper s')
  end.

(** [strings.HasPrefix(s, prefix)] *)
Fixpoint HasPrefix (s prefix : string) : bool :=
  match prefix, s with
  | EmptyString, _ => true
  | String _ _, EmptyString => false
  | String p prefix', String c s' =>
      if Ascii.eqb c p then HasPrefix s' prefix' else false
  end.

(** [strings.Index(s, substr)]: the offset of the first occurrence. *)
Fixpoint Index (s substr : string) : option nat :=
  if HasPrefix s substr then Some 0%nat
  else match s with
       | EmptyString => None
       | String _ s' => S <$> Index s' substr
       end.

(** [strings.Contains(s, substr)] is [Index(s, substr) >= 0]. *)
Definition Contains (s substr : string) : bool :=
  bool_decide (is_Some (Index s substr)).

(** [s[n:]] and [s[:n]] *)
Fixpoint skip (n : nat) (s : string) : string :=
  match n, s with
  | O, _ => s
  | S n', String _ s' => skip n' s'
  | S _, EmptyString => EmptyString
  end.

Fixpoint take (n : nat) (s : string) : string :=
  match n, s with
  | S n', String c s' => String c (take n' s')
  | _, _ => EmptyString
  end.

(** [strings.TrimPrefix] and [strings.TrimSuffix] *)
Definition TrimPrefix (s prefix : string) : string :=
  if HasPrefix s prefix then skip (String.length prefix) s else s.

Fixpoint HasSuffix (s suffix : string) : bool :=
  if String.eqb s suffix then true
  else match s with
       | EmptyString => false
       | String _ s' => HasSuffix s' suffix
       end.

Definition TrimSuffix (s suffix : string) : string :=
  if HasSuffix s suffix
  then take (String.length s - String.length suffix) s else s.

(** [strings.TrimSpace] cuts the leading and the trailing white space "as
    defined by Unicode": the runes of [unicode.IsSpace], read from the
    UTF-8 text.  [spaces] lists these runes by their UTF-8 encodings: tab,
    line feed, vertical tab, form feed, carriage return and space (Go's
    [asciiSpace] table), U+0085, U+00A0, U+1680, U+2000 to U+200A, U+2028,
    U+2029, U+202F, U+205F and U+3000. *)
Definition bytes (codes : list nat) : string :=
  foldr (fun n s => String (ascii_of_nat n) s) EmptyString codes.

Definition spaces : list string :=
  map bytes
    [ [9]; [10]; [11]; [12]; [13]; [32];
      [194; 133]; [194; 160];
      [225; 154; 128];
      [226; 128; 128]; [226; 128; 129]; [226; 128; 130]; [226; 128; 131];
      [226; 128; 132]; [226; 128; 133]; [226; 128; 134]; [226; 128; 135];
      [226; 128; 136]; [226; 128; 137]; [226; 128; 138];
      [226; 128; 168]; [226; 128; 169]; [226; 128; 175];
      [226; 129; 159];
      [227; 128; 128] ].

(** The white-space rune a text starts with, and the one it ends with.
    Go decodes the first rune with [utf8.DecodeRuneInString] and the last
    one with [utf8.DecodeLastRuneInString]; a byte sequence that is no
    valid encoding decodes to U+FFFD, which is no white space.  So the
    first (last) rune is white space exactly when the text starts (ends)
    with one of the encodings of [spaces]. *)
Definition leadingSpace (s : string) : option string :=
  List.find (HasPrefix s) spaces.

Definition trailingSpace (s : string) : option string :=
  List.find (HasSuffix s) spaces.

(** The two loops of [TrimFunc(s, unicode.IsSpace)]: white-space runes are
    cut from the start, then from the end, until another rune (or the end
    of the text) is met.  [fuel] bounds the number of runes cut; the
    length of the text is enough. *)
Fixpoint trimLeftLoop (fuel : nat) (s : string) : string :=
  match fuel with
  | O => s
  | S fuel' =>
      match leadingSpace s with
      | Some r => trimLeftLoop fuel' (skip (String.length r) s)
      | None => s
      end
  end.

Fixpoint trimRightLoop (fuel : nat) (s : string) : string :=
  match fuel with
  | O => s
  | S fuel' =>
      match trailingSpace s with
      | Some r => trimRightLoop fuel' (take (String.length s - String.length r) s)
      | None => s
      end
  end.

Definition TrimLeft (s : string) : string := trimLeftLoop (String.length s) s.

Definition TrimRight (s : string) : string := trimRightLoop (String.length s) s.

Definition TrimSpace (s : string) : string := TrimRight (TrimLeft s).

(** [strings.Split(s, sep)] for a non-empty separator: cut at the first
    occurrence of [sep], continue behind it.  [fuel] bounds the number of
    cuts; [Split] supplies one more than the length of [s]. *)
Fixpoint splitLoop (fuel : nat) (s sep : string) : list string :=
  match fuel with
  | O => [s]
  | S fuel' =>
      match Index s sep with
      | None => [s]
      | Some m => take m s :: splitLoop fuel' (skip (m + String.length sep) s) sep
      end
  end.

Definition Split (s sep : string) : list string :=
  splitLoop (S (String.length s)) s sep.

End Strings.

(** ** Values, errors and cursors of [database/sql] *)

(** A Go [error] is carried by its message ([err.Error()]). *)
Inductive result (A : Type) : Type :=
| Ok (a : A)
| Err (e : string).
Arguments Ok {A} a.
Arguments Err {A} e.

(** What the driver stores into an [interface{}] destination: [nil] for
    SQL NULL, or a dynamic value.  ([float64] and [time.Time] values are
    left out: no function below inspects them.) *)
Inductive Value : Type :=
| Nil
| Int64 (n : Z)
| Bool (b : bool)
| Str (s : string)
| Bytes (b : list ascii).

(** One [rows.Next(); rows.Scan(...)] step: either every destination is
    filled, or the scan stops with an error after filling the destinations
    in [partial] (the others keep their zero value).  A scan into [*string]
    destinations (package [database]) fails on a NULL; a scan into
    [*interface{}] destinations (package [main]) stores whatever the driver
    delivers, so there the failing step is a branch of the code that a
    well-formed cursor does not take. *)
Inductive Scan : Type :=
| Scanned (vals : list Value)
| ScanFailed (e : string) (partial : list Value).

(** A result cursor ([*sql.Rows]): the column names of the result metadata,
    the rows delivered while [rows.Next()] is true, and what ended the
    cursor: [RowsErr] is [rows.Err()] once [rows.Next()] is false, [None]
    when the result set was read to its end, [Some e] when the statement
    (or the connection) failed with [e] while the rows were delivered. *)
Record Rows : Type :=
  { Columns : list string; Next : list Scan; RowsErr : option string }.

(** ** The catalog ([information_schema]) *)

Record Column : Type := { column_name : string; data_type : string }.

(** A relation of the catalog: its namespace, its name and its columns in
    the order they were declared (the n-th has [ordinal_position] n). *)
Record Table : Type :=
  { table_schema : string; table_name : string; columns : list Column }.

(** The catalog lists the relations in the order of their declaration. *)
Definition Catalog : Type := list Table.

(** ** The collaborators *)

(** The backing store.  [Store] is a state of the database; [catalog]
    reads its catalog (or fails: the connection is down); [run] sends one
    statement text to a state: it gives an error when the statement fails
    before a result arrives (the error [DB.Query] returns), in which case
    the state is untouched, and the new state and a cursor otherwise; an
    error that the statement meets later ends the cursor ([RowsErr]).
    A transaction works on a private copy of the state taken at [Begin];
    [Commit] installs the copy, [Rollback] drops it.  [beginFails] and
    [commitFails] say when [Begin] and [Commit] themselves fail. *)
Class Backend : Type := {
  Store : Type;
  catalog : Store -> result Catalog;
  run : string -> Store -> result (Store * Rows);
  beginFails : Store -> option string;
  commitFails : Store -> option string
}.

(** A part of a generated candidate: text, or anything else. *)
Inductive Part : Type :=
| Text (s : string)
| Blob.

(** A candidate of a response, by its field [Content]: a pointer that is
    nil ([None]: the generator sent no content, as for a blocked answer) or
    leads to the [Parts] of the content. *)
Definition Candidate : Type := option (list Part).

(** [resp.Candidates] of a [*genai.GenerateContentResponse]. *)
Definition GenerateContentResponse : Type := list Candidate.

(** A call that comes back with a value, or panics. *)
Inductive returned (A : Type) : Type :=
| Returns (a : A)
| Panics.
Arguments Returns {A} a.
Arguments Panics {A}.

(** The text generator: a system instruction, the sampling parameters and
    a prompt give a response or an error.  [float32] is kept abstract;
    [lowTemperature] is the constant [0.1]. *)
Class Generator : Type := {
  float32 : Type;
  lowTemperature : float32;
  GenerateContent :
    string -> float32 -> Z -> string -> result GenerateContentResponse
}.

(** ** The process state and the calls it has issued *)

Inductive Event : Type :=
| Introspected (sql : string)      (* a catalog query of package database *)
| Queried (sql : string)           (* DB.Query *)
| Began                            (* DB.Begin *)
| Executed (sql : string)          (* tx.Exec *)
| Committed                        (* tx.Commit *)
| RolledBack                       (* tx.Rollback *)
| Asked (prompt : string).         (* model.GenerateContent *)

Record World `{Backend} : Type := { db : Store; trace : list Event }.

Definition M `{Backend} (A : Type) : Type := World -> A * World.

Definition ret `{Backend} {A} (a : A) : M A := fun w => (a, w).

Definition bind `{Backend} {A B} (m : M A) (k : A -> M B) : M B :=
  fun w => let (a, w') := m w in k a w'.

Notation "'do' x <- m ; k" := (bind m (fun x => k))
  (at level 10, x name, m at level 100, k at level 200).

Definition emit `{Backend} (e : Event) : M unit :=
  fun w => (tt, {| db := db w; trace := trace w ++ [e] |}).

Definition LF : string := String (ascii_of_nat 10) "".
Definition DQ : string := String (ascii_of_nat 34) "".

(** ** Package [gemini] *)

Module gemini.
Import Strings.

Definition texts (parts : list Part) : string :=
  foldr (fun p acc => match p with Text t => t +:+ acc | Blob => acc end) "" parts.

(** The guard of [getResponseText] reads [resp.Candidates[0].Content.Parts]
    without a nil check: with a first candidate whose [Content] is nil
    this is a nil pointer dereference, and the call panics and returns
    nothing.  [nilContent] says when. *)
Definition nilContent (resp : GenerateContentResponse) : bool :=
  match resp with
  | None :: _ => true
  | _ => false
  end.

(** The text [getResponseText] returns.  (On a response with [nilContent]
    there is no return: the panic passes on through [GenerateDataSQL] and
    [NaturalLanguageToSQL] to the handler, as [Panics] below; the value
    here is then used by no caller, and left at the empty text.) *)
Definition getResponseText (resp : GenerateContentResponse) : string :=
  match resp with
  | [] => ""
  | None :: _ => ""
  | Some [] :: _ => ""
  | Some parts :: _ =>
      let text := texts parts in
      let text := TrimSpace text in
      let text := TrimPrefix text "```sql" in
      let text := TrimPrefix text "```" in
      let text := TrimSpace text in
      let text := TrimSuffix text "```" in
      let text := TrimSpace text in
      text
  end.

(** The conversion [int32(maxTokens)] of a 64-bit [int]. *)
Definition int32 (n : Z) : Z := ((n + 2 ^ 31) mod 2 ^ 32 - 2 ^ 31)%Z.

Definition dataSystemInstruction : string :=
  "Eres un DBA que solo responde con código SQL INSERT. Estás prohibido de usar lenguaje natural. Genera exclusivamente sentencias SQL INSERT válidas para las tablas proporcionadas.".

Definition dataPrompt (schema : string) : string :=
  "Schema:" +:+ LF +:+ schema +:+ LF +:+ LF +:+
  "Task: Generate 15-20 INSERT statements with UNIQUE and VARIED realistic dummy data. For unique fields like username/email, add random numbers or timestamps to ensure uniqueness (e.g., user123, john.doe.456@example.com). Use single quotes for strings and escape any quotes inside strings properly. Output only valid PostgreSQL INSERT statements, no markdown, no explanations.".

Definition querySystemInstruction : string :=
  "You are a database analyst assistant. You ONLY generate SELECT queries." +:+ LF +:+
  LF +:+
  "Rules:" +:+ LF +:+
  "1. If user asks to modify data (DROP, DELETE, UPDATE, etc), respond with 'ERROR: Unauthorized'" +:+ LF +:+
  "2. If user asks for a chart, graph, or visualization (keywords: chart, graph, plot, show, draw, visualize), you MUST:" +:+ LF +:+
  "   - Generate a valid SELECT query that aggregates data" +:+ LF +:+
  "   - Add a comment line at the END: -- CHART: [type]" +:+ LF +:+
  "   - Chart types: bar, pie, line, doughnut" +:+ LF +:+
  "3. Output ONLY the SQL query with no explanations" +:+ LF +:+
  LF +:+
  "Examples:" +:+ LF +:+
  "- " +:+ DQ +:+ "show a bar chart of restaurants by city" +:+ DQ +:+
  " → SELECT city, COUNT(*) as count FROM restaurants GROUP BY city; -- CHART: bar" +:+ LF +:+
  "- " +:+ DQ +:+ "draw a pie chart of users by country" +:+ DQ +:+
  " → SELECT country, COUNT(*) as total FROM users GROUP BY country; -- CHART: pie".

Definition queryInput (schema userPrompt : string) : string :=
  "Schema:" +:+ LF +:+ schema +:+ LF +:+ LF +:+
  "User Question: " +:+ userPrompt +:+ LF +:+ LF +:+
  "Generate the SQL query (remember to add -- CHART: comment if visualization is requested):".

Section Client.
Context `{Backend} `{Generator}.

(** [GenerateDataSQL] asks for INSERT statements based on the schema. *)
Definition GenerateDataSQL (schema : string) (temperature : float32)
    (maxTokens : Z) : M (returned (result string)) :=
  let prompt := dataPrompt schema in
  do _ <- emit (Asked prompt);
  match GenerateContent dataSystemInstruction temperature (int32 maxTokens) prompt with
  | Err e => ret (Returns (Err e))
  | Ok resp =>
      if nilContent resp then ret Panics
      else ret (Returns (Ok (getResponseText resp)))
  end.

(** The clean-up of [NaturalLanguageToSQL] and its chart flag. *)
Definition cleanSQL (text : string) : string :=
  let text := TrimPrefix text "```sql" in
  let text := TrimPrefix text "```" in
  let text := TrimSuffix text "```" in
  let text := TrimSpace text in
  text.

(** [NaturalLanguageToSQL] asks for one SELECT query for a question. *)
Definition NaturalLanguageToSQL (schema userPrompt : string)
    : M (returned (result (string * bool))) :=
  let input := queryInput schema userPrompt in
  do _ <- emit (Asked input);
  match GenerateContent querySystemInstruction lowTemperature 1024 input with
  | Err e => ret (Returns (Err e))
  | Ok resp =>
      if nilContent resp then ret Panics
      else
        let text := getResponseText resp in
        let text := cleanSQL text in
        let isChart := Contains text "-- CHART:" in
        ret (Returns (Ok (text, isChart)))
  end.

End Client.
End gemini.

(** ** Package [database] *)

Module database.
Import Strings.

Definition forbidden : list string :=
  ["DROP"; "DELETE"; "UPDATE"; "ALTER"; "TRUNCATE"].

(** The [for _, word := range forbidden] loop with its early [return false]. *)
Fixpoint scan (upperQuery : string) (words : list string) : bool :=
  match words with
  | [] => true
  | word :: rest =>
      if Contains upperQuery word then false else scan upperQuery rest
  end.

(** [IsQuerySafe] checks if the SQL query contains forbidden keywords. *)
Definition IsQuerySafe (query : string) : bool :=
  let upperQuery := ToUpper query in
  scan upperQuery forbidden.

(** *** The two catalog queries

    The views [information_schema.columns] and [information_schema.tables]
    as relations over the catalog, and the two SELECT statements of
    [GetSchema] and [GetTables] read off their SQL text: the [WHERE] clause
    is a filter, the [ORDER BY] clause a sort on the listed keys (names
    compare byte-wise), the select list a projection. *)

Record ColumnsRow : Type := {
  c_table_schema : string;
  c_table_name : string;
  c_column_name : string;
  c_ordinal_position : nat;
  c_data_type : string
}.

Record TablesRow : Type := { t_table_schema : string; t_table_name : string }.

(** The rows of one relation, its columns numbered from [i] on. *)
Fixpoint columnsFrom (t : Table) (i : nat) (cols : list Column) : list ColumnsRow :=
  match cols with
  | [] => []
  | col :: cols' =>
      {| c_table_schema := table_schema t;
         c_table_name := table_name t;
         c_column_name := column_name col;
         c_ordinal_position := i;
         c_data_type := data_type col |} :: columnsFrom t (S i) cols'
  end.

Definition columnsOf (t : Table) : list ColumnsRow := columnsFrom t 1 (columns t).

Definition information_schema_columns (c : Catalog) : list ColumnsRow :=
  flat_map columnsOf c.

Definition information_schema_tables (c : Catalog) : list TablesRow :=
  map (fun t => {| t_table_schema := table_schema t;
                   t_table_name := table_name t |}) c.

(** [ORDER BY table_name, ordinal_position]: by name, and by position
    among the rows of one name. *)
Definition columnsOrder (r1 r2 : ColumnsRow) : bool :=
  if String.eqb (c_table_name r1) (c_table_name r2)
  then (c_ordinal_position r1 <=? c_ordinal_position r2)%nat
  else String.leb (c_table_name r1) (c_table_name r2).

Definition byNamePosition (r1 r2 : ColumnsRow) : Prop := columnsOrder r1 r2 = true.

(** [ORDER BY table_name] *)
Definition byName (r1 r2 : TablesRow) : Prop :=
  String.le (t_table_name r1) (t_table_name r2).

#[global] Instance byNamePosition_dec : RelDecision byNamePosition :=
  fun r1 r2 => decide (columnsOrder r1 r2 = true).
#[global] Instance byName_dec : RelDecision byName :=
  fun r1 r2 => decide (String.le (t_table_name r1) (t_table_name r2)).

(** The texts of the two queries, written on one line. *)
Definition schemaQuery : string :=
  "SELECT table_name, column_name, data_type FROM information_schema.columns WHERE table_schema = 'public' ORDER BY table_name, ordinal_position;".

Definition tablesQuery : string :=
  "SELECT table_name FROM information_schema.tables WHERE table_schema = 'public' ORDER BY table_name;".

Definition selectSchema (c : Catalog) : list (string * string * string) :=
  map (fun r => (c_table_name r, c_column_name r, c_data_type r))
    (merge_sort byNamePosition
       (filter (fun r => c_table_schema r = "public")
          (information_schema_columns c))).

Definition selectTables (c : Catalog) : list string :=
  map t_table_name
    (merge_sort byName
       (filter (fun r => t_table_schema r = "public")
          (information_schema_tables c))).

(** The [for rows.Next()] loop of [GetSchema] over a cursor of three text
    columns, with the builder and [currentTable] as loop state, and the
    closing of the last table behind it. *)
Fixpoint schemaLoop (rows : list (result (string * string * string)))
    (schemaBuilder currentTable : string) : result string :=
  match rows with
  | [] =>
      Ok (if negb (String.eqb currentTable "")
          then schemaBuilder +:+ ")" +:+ LF
          else schemaBuilder)
  | Err e :: _ => Err e
  | Ok (tableName, columnName, dataType) :: rows' =>
      let '(schemaBuilder, currentTable) :=
        if negb (String.eqb tableName currentTable) then
          let schemaBuilder :=
            if negb (String.eqb currentTable "")
            then schemaBuilder +:+ ")" +:+ LF
            else schemaBuilder in
          (schemaBuilder +:+ ("TABLE " +:+ tableName +:+ " (" +:+ LF), tableName)
        else (schemaBuilder, currentTable) in
      schemaLoop rows'
        (schemaBuilder +:+ ("  " +:+ columnName +:+ " " +:+ dataType +:+ "," +:+ LF))
        currentTable
  end.

(** The [for rows.Next()] loop of [GetTables]. *)
Fixpoint tablesLoop (rows : list (result string)) (tables : list string)
    : result (list string) :=
  match rows with
  | [] => Ok tables
  | Err e :: _ => Err e
  | Ok tableName :: rows' => tablesLoop rows' (tables ++ [tableName])
  end.

Section Introspector.
Context `{Backend}.

Definition GetSchema : M (result string) :=
  do _ <- emit (Introspected schemaQuery);
  fun w =>
    match catalog (db w) with
    | Err e => (Err e, w)
    | Ok c => (schemaLoop (map Ok (selectSchema c)) "" "", w)
    end.

(** [GetTables] returns a list of table names in the database. *)
Definition GetTables : M (result (list string)) :=
  do _ <- emit (Introspected tablesQuery);
  fun w =>
    match catalog (db w) with
    | Err e => (Err e, w)
    | Ok c => (tablesLoop (map Ok (selectTables c)) [], w)
    end.

End Introspector.
End database.

(** ** Package [main] ([cmd/web/main.go]): the request handlers *)

Module web.
Import Strings database gemini.

(** A request as the handlers read it: the method, the decoded JSON body
    ([None] when decoding fails) and the URL parameter [table]. *)
Record Request (B : Type) : Type :=
  { Method : string; Body : option B; Table : string }.
Arguments Method {B} _.
Arguments Body {B} _.
Arguments Table {B} _.

Record GenerateRequest `{Generator} : Type :=
  { Temperature : float32; MaxTokens : Z }.

(** What a handler writes to its [http.ResponseWriter]; [Aborted] when it
    panics before it writes anything ([net/http] recovers the panic and
    closes the connection without a reply). *)
Inductive Reply : Type :=
| Aborted
| Error (msg : string) (code : Z)
| Plain (body : string)
| PreviewJSON (message : string) (preview : list (gmap string string))
    (table : string)
| QueryJSON (sql : string) (result : list (gmap string Value))
    (isChart : bool) (chartType : string)
| CSVFile (filename : string) (records : list (list string))
| ZipFile (entries : list (string * list (list string))).

(** [fmt.Sprintf] with the verb [%v] on a driver value. *)
Definition decimal (n : Z) : string :=
  DecimalString.NilZero.string_of_int (Z.to_int n).

Fixpoint joinWith (sep : string) (l : list string) : string :=
  match l with
  | [] => ""
  | [x] => x
  | x :: l' => x +:+ sep +:+ joinWith sep l'
  end.

Definition Sprintv (val : Value) : string :=
  match val with
  | Nil => "<nil>"
  | Int64 n => decimal n
  | Bool b => if b then "true" else "false"
  | Str s => s
  | Bytes b =>
      "[" +:+ joinWith " " (map (fun c => decimal (Z.of_nat (nat_of_ascii c))) b) +:+ "]"
  end.

(** The destinations [columns] after a scan step: [len(cols)] slots, [nil]
    where the scan stored nothing. *)
Definition slots (cols : list string) (stored : list Value) : list Value :=
  map (fun i => default Nil (stored !! i)) (seq 0 (length cols)).

(** [m[colName] = *val] for each column, later columns overwriting. *)
Fixpoint fillMap {V} (m : gmap string V) (cols : list string) (vals : list V)
    : gmap string V :=
  match cols, vals with
  | colName :: cols', val :: vals' => fillMap (<[colName := val]> m) cols' vals'
  | _, _ => m
  end.

(** The row loop of [query], [for rows.Next()]: a row whose scan fails is
    skipped.  The loop ends when [rows.Next()] is false; [rows.Err()] is
    read neither here nor in the other row loops of this package, so
    [RowsErr] has no part in them. *)
Fixpoint materialize (cols : list string) (next : list Scan)
    : list (gmap string Value) :=
  match next with
  | [] => []
  | ScanFailed _ _ :: next' => materialize cols next'
  | Scanned vals :: next' =>
      fillMap ∅ cols (slots cols vals) :: materialize cols next'
  end.

(** The row loop of [fetchingTableData]: every value goes through [%v]
    (the pointer [val] is never nil). *)
Fixpoint materializeText (cols : list string) (next : list Scan)
    : list (gmap string string) :=
  match next with
  | [] => []
  | ScanFailed _ _ :: next' => materializeText cols next'
  | Scanned vals :: next' =>
      fillMap ∅ cols (map Sprintv (slots cols vals)) :: materializeText cols next'
  end.

(** The record of one row in the CSV exports. *)
Definition csvRecord (columns : list Value) : list string :=
  map (fun val => match val with Nil => "" | _ => Sprintv val end) columns.

(** The row loop of [downloadCSV]: a row whose scan fails is skipped. *)
Fixpoint csvRows (cols : list string) (next : list Scan) : list (list string) :=
  match next with
  | [] => []
  | ScanFailed _ _ :: next' => csvRows cols next'
  | Scanned vals :: next' => csvRecord (slots cols vals) :: csvRows cols next'
  end.

(** The row loop of [downloadZip]: the error of [rows.Scan] is not looked
    at, the record is written from whatever the scan stored. *)
Fixpoint zipRows (cols : list string) (next : list Scan) : list (list string) :=
  match next with
  | [] => []
  | ScanFailed _ partial :: next' =>
      csvRecord (slots cols partial) :: zipRows cols next'
  | Scanned vals :: next' => csvRecord (slots cols vals) :: zipRows cols next'
  end.

(** In [query]: the split of the generated text at the chart marker. *)
Definition splitChart (generatedSQL : string) (isChart : bool) : string * string :=
  if isChart then
    let parts := Split generatedSQL "-- CHART:" in
    if (1 <? length parts)%nat
    then (default "" (parts !! 0%nat), TrimSpace (default "" (parts !! 1%nat)))
    else (generatedSQL, "")
  else (generatedSQL, "").

Section Application.
Context `{Backend} `{Generator}.

(** *** The calls on [app.DB] and on a transaction *)

Definition DB_Query (sql : string) : M (result Rows) :=
  do _ <- emit (Queried sql);
  fun w =>
    match run sql (db w) with
    | Err e => (Err e, w)
    | Ok (s, rows) => (Ok rows, {| db := s; trace := trace w |})
    end.

Definition DB_Begin : M (result Store) :=
  do _ <- emit Began;
  fun w =>
    match beginFails (db w) with
    | Some e => (Err e, w)
    | None => (Ok (db w), w)
    end.

(** [tx.Exec] runs the statement to its end and returns the error it
    meets, before or after the first row of a result. *)
Definition exec (sql : string) (tx : Store) : result Store :=
  match run sql tx with
  | Err e => Err e
  | Ok (tx', rows) =>
      match RowsErr rows with
      | Some e => Err e
      | None => Ok tx'
      end
  end.

Definition Tx_Exec (tx : Store) (sql : string) : M (result Store) :=
  do _ <- emit (Executed sql);
  ret (exec sql tx).

Definition Tx_Rollback (tx : Store) : M unit := emit RolledBack.

Definition Tx_Commit (tx : Store) : M (option string) :=
  do _ <- emit Committed;
  fun w =>
    match commitFails tx with
    | Some e => (Some e, w)
    | None => (None, {| db := tx; trace := trace w |})
    end.

(** *** [fetchingTableData]: raw data for the preview *)

Definition fetchingTableData (tableName : string)
    : M (result (list (gmap string string))) :=
  do rows <- DB_Query ("SELECT * FROM " +:+ tableName +:+ " LIMIT 10");
  match rows with
  | Err e => ret (Err e)
  | Ok rows => ret (Ok (materializeText (Columns rows) (Next rows)))
  end.

(** *** [generateData] *)

(** The loop over the split statements inside the transaction: [inl] holds
    the error and the statement it came from (after the rollback), [inr]
    the transaction after the last statement. *)
Fixpoint execStatements (tx : Store) (statements : list string)
    : M (string * string + Store) :=
  match statements with
  | [] => ret (inr tx)
  | stmt :: statements' =>
      let stmt := TrimSpace stmt in
      if String.eqb stmt "" then execStatements tx statements'
      else
        do r <- Tx_Exec tx stmt;
        match r with
        | Err e => do _ <- Tx_Rollback tx; ret (inl (e, stmt))
        | Ok tx' => execStatements tx' statements'
        end
  end.

(** The preview behind a committed batch. *)
Definition preview : M Reply :=
  do tables <- GetTables;
  match tables with
  | Err _ | Ok [] => ret (Plain "Data generated but no tables found to preview")
  | Ok (table0 :: _) =>
      do previewData <- fetchingTableData table0;
      match previewData with
      | Err _ => ret (Plain "Data generated successfully")
      | Ok previewData =>
          ret (PreviewJSON "Data generated successfully" previewData table0)
      end
  end.

(** The transaction of [generateData]: [inl] is the error reply, [inr tt]
    says the batch is committed. *)
Definition executeBatch (sqlResult : string) : M (Reply + unit) :=
  let statements := Split sqlResult ";" in
  do tx <- DB_Begin;
  match tx with
  | Err _ => ret (inl (Error "Database error" 500))
  | Ok tx =>
      do r <- execStatements tx statements;
      match r with
      | inl (e, stmt) =>
          ret (inl (Error ("Error executing generated SQL: " +:+ e +:+ LF +:+
                           "SQL: " +:+ stmt) 500))
      | inr tx =>
          do err <- Tx_Commit tx;
          match err with
          | Some _ => ret (inl (Error "Transaction commit error" 500))
          | None => ret (inr tt)
          end
      end
  end.

Definition generateData (r : Request GenerateRequest) : M Reply :=
  if negb (String.eqb (Method r) "POST") then
    ret (Error "Method not allowed" 405)
  else
    match Body r with
    | None => ret (Error "Invalid request body" 400)
    | Some req =>
        do schema <- GetSchema;
        match schema with
        | Err _ => ret (Error "Error fetching schema" 500)
        | Ok schema =>
            if String.eqb schema "" then
              ret (Error "No tables found in database" 400)
            else
              do sqlResult <- GenerateDataSQL schema (Temperature req) (MaxTokens req);
              match sqlResult with
              | Panics => ret Aborted
              | Returns (Err e) => ret (Error ("Gemini error: " +:+ e) 500)
              | Returns (Ok sqlResult) =>
                  do outcome <- executeBatch sqlResult;
                  match outcome with
                  | inl reply => ret reply
                  | inr _ => preview
                  end
              end
        end
    end.

(** *** [query] *)

Definition query (r : Request string) : M Reply :=
  if negb (String.eqb (Method r) "POST") then
    ret (Error "Method not allowed" 405)
  else
    match Body r with
    | None => ret (Error "Invalid JSON" 400)
    | Some prompt =>
        do schema <- GetSchema;
        match schema with
        | Err _ => ret (Error "Error fetching schema" 500)
        | Ok schema =>
            do generated <- NaturalLanguageToSQL schema prompt;
            match generated with
            | Panics => ret Aborted
            | Returns (Err e) => ret (Error ("AI Error: " +:+ e) 500)
            | Returns (Ok (generatedSQL, isChart)) =>
                let '(execSQL, chartType) := splitChart generatedSQL isChart in
                if negb (IsQuerySafe execSQL) then
                  ret (Error "Unsafe query generated. Operation blocked." 403)
                else
                  do rows <- DB_Query execSQL;
                  match rows with
                  | Err e =>
                      ret (Error ("Query execution error: " +:+ e +:+ LF +:+
                                  "SQL: " +:+ execSQL) 500)
                  | Ok rows =>
                      let result := materialize (Columns rows) (Next rows) in
                      ret (QueryJSON generatedSQL result isChart chartType)
                  end
            end
        end
    end.

(** *** [downloadCSV] and [downloadZip] *)

Definition downloadCSV (r : Request unit) : M Reply :=
  do tableName <-
    (if String.eqb (Table r) "" then
       do tables <- GetTables;
       match tables with
       | Ok (table0 :: _) => ret (Some table0)
       | _ => ret None
       end
     else ret (Some (Table r)));
  match tableName with
  | None => ret (Error "No table specified" 400)
  | Some tableName =>
      do rows <- DB_Query ("SELECT * FROM " +:+ tableName);
      match rows with
      | Err _ => ret (Error "Error querying table" 500)
      | Ok rows =>
          ret (CSVFile (tableName +:+ ".csv")
                 (Columns rows :: csvRows (Columns rows) (Next rows)))
      end
  end.

(** The [for _, tableName := range tables] loop of [downloadZip]; a table
    whose query fails is left out of the archive.  ([zipWriter.Create] is
    taken to succeed.) *)
Fixpoint zipTables (tables : list string)
    : M (list (string * list (list string))) :=
  match tables with
  | [] => ret []
  | tableName :: tables' =>
      do rows <- DB_Query ("SELECT * FROM " +:+ tableName);
      match rows with
      | Err _ => zipTables tables'
      | Ok rows =>
          do entries <- zipTables tables';
          ret ((tableName +:+ ".csv",
                Columns rows :: zipRows (Columns rows) (Next rows)) :: entries)
      end
  end.

Definition downloadZip (r : Request unit) : M Reply :=
  do tables <- GetTables;
  match tables with
  | Err _ => ret (Error "Error fetching tables" 500)
  | Ok tables =>
      do entries <- zipTables tables;
      ret (ZipFile entries)
  end.

End Application.
End web.

(** ** Sample collaborators

    A small store and a scripted generator, to run the handlers on. *)

Module Samples.
Import Strings.

(** A store with a catalog, a list of the INSERT statements applied so far
    (each statement text may be applied once: a uniqueness constraint), the
    cursor it answers every SELECT with, a connection that is up or down,
    and the statements it rejects for missing rights. *)
Record Shop : Type := {
  shopCatalog : Catalog;
  applied : list string;
  answer : Rows;
  online : bool;
  denied : list string
}.

Definition shopRun (sql : string) (s : Shop) : result (Shop * Rows) :=
  if bool_decide (sql ∈ denied s) then Err "pq: permission denied"
  else if HasPrefix sql "INSERT" then
    if bool_decide (sql ∈ applied s)
    then Err "pq: duplicate key value violates unique constraint"
    else Ok ({| shopCatalog := shopCatalog s; applied := applied s ++ [sql];
                answer := answer s; online := online s; denied := denied s |},
             {| Columns := []; Next := []; RowsErr := None |})
  else if HasPrefix sql "SELECT" then Ok (s, answer s)
  else Err "pq: syntax error".

Definition shop : Backend := {|
  Store := Shop;
  catalog := fun s => if online s then Ok (shopCatalog s)
                      else Err "dial tcp: connection refused";
  run := shopRun;
  beginFails := fun _ => None;
  commitFails := fun _ => None
|}.

(** A generator that answers every prompt with the same reply. *)
Definition scripted (reply : result GenerateContentResponse) : Generator := {|
  float32 := unit;
  lowTemperature := tt;
  GenerateContent := fun _ _ _ _ => reply
|}.

Definition says (text : string) : Generator := scripted (Ok [Some [Text text]]).

Definition restaurants : Table := {|
  table_schema := "public";
  table_name := "restaurants";
  columns := [ {| column_name := "id"; data_type := "integer" |};
               {| column_name := "name"; data_type := "character varying" |};
               {| column_name := "city"; data_type := "character varying" |} ]
|}.

Definition reviews : Table := {|
  table_schema := "public";
  table_name := "reviews";
  columns := [ {| column_name := "id"; data_type := "integer" |};
               {| column_name := "body"; data_type := "text" |} ]
|}.

Definition audit : Table := {|
  table_schema := "internal";
  table_name := "audit";
  columns := [ {| column_name := "at"; data_type := "timestamp without time zone" |} ]
|}.

Definition noRows : Rows := {| Columns := []; Next := []; RowsErr := None |}.

Definition startDenying (c : Catalog) (a : Rows) (rejected : list string)
    : @World shop :=
  {| db := {| shopCatalog := c; applied := []; answer := a; online := true;
              denied := rejected |} : @Store shop;
     trace := [] |}.

Definition start (c : Catalog) (a : Rows) : @World shop := startDenying c a [].

Definition post {B} (body : B) : web.Request B :=
  {| web.Method := "POST"; web.Body := Some body; web.Table := "" |}.

End Samples.

(** * Part II: properties *)

(** ** Occurrences in byte strings *)

Module StringFacts.
Import Strings.

(** [sub] occurs in [s]. *)
Definition occurs (sub s : string) : Prop :=
  exists pre post, s = pre +:+ sub +:+ post.

(** [sub] occurs in [s] at offset [length pre] and nowhere before. *)
Definition firstAt (pre sub s : string) : Prop :=
  (exists post, s = pre +:+ sub +:+ post) /\
  forall pre' post', s = pre' +:+ sub +:+ post' ->
    (String.length pre <= String.length pre')%nat.

Lemma app_assoc (a b c : string) : (a +:+ b) +:+ c = a +:+ b +:+ c.
Proof. induction a as [|x a IH]; simpl; [reflexivity | now rewrite IH]. Qed.

Lemma app_nil_r (a : string) : a +:+ "" = a.
Proof. induction a as [|x a IH]; simpl; [reflexivity | now rewrite IH]. Qed.

Lemma app_length (a b : string) :
  String.length (a +:+ b) = (String.length a + String.length b)%nat.
Proof. induction a as [|x a IH]; simpl; [reflexivity | now rewrite IH]. Qed.

Lemma HasPrefix_spec (s p : string) :
  HasPrefix s p = true <-> exists t, s = p +:+ t.
Proof.
  revert s. induction p as [|c p IH]; intros s; simpl.
  - split; [intros _; now exists s | now destruct s].
  - destruct s as [|d s].
    + split; [discriminate | intros [t Ht]; discriminate].
    + simpl. destruct (Ascii.eqb d c) eqn:E.
      * apply Ascii.eqb_eq in E as ->. rewrite IH.
        split; intros [t Ht]; exists t; congruence.
      * apply Ascii.eqb_neq in E.
        split; [discriminate | intros [t Ht]; congruence].
Qed.

Lemma take_app (a b : string) : take (String.length a) (a +:+ b) = a.
Proof. induction a as [|x a IH]; simpl; [now destruct b | now rewrite IH]. Qed.

Lemma skip_app (a b : string) : skip (String.length a) (a +:+ b) = b.
Proof. induction a as [|x a IH]; simpl; [reflexivity | exact IH]. Qed.

Lemma take_skip (n : nat) (s : string) : take n s +:+ skip n s = s.
Proof.
  revert s. induction n as [|n IH]; intros [|c s]; simpl; try reflexivity.
  now rewrite IH.
Qed.

Lemma take_length (n : nat) (s : string) :
  (n <= String.length s)%nat -> String.length (take n s) = n.
Proof.
  revert s. induction n as [|n IH]; intros [|c s]; simpl; intros Hn;
    try reflexivity; try lia.
  rewrite IH; [reflexivity | lia].
Qed.

Lemma Index_unfold (s sub : string) :
  Index s sub =
  if HasPrefix s sub then Some 0%nat
  else match s with
       | EmptyString => None
       | String _ s' => S <$> Index s' sub
       end.
Proof. destruct s; reflexivity. Qed.

Lemma HasPrefix_app (sub post : string) : HasPrefix (sub +:+ post) sub = true.
Proof. apply HasPrefix_spec. now exists post. Qed.

(** [Index] finds the first occurrence. *)
Lemma Index_Some (s sub : string) (m : nat) :
  Index s sub = Some m ->
  (m <= String.length s)%nat /\ firstAt (take m s) sub s.
Proof.
  revert m. induction s as [|c s IH]; intros m; rewrite Index_unfold;
    destruct (HasPrefix _ sub) eqn:Hp; try discriminate.
  - intros [= <-]. split; [simpl; lia|]. split.
    + apply HasPrefix_spec in Hp as [t Ht]. now exists t.
    + intros; simpl; lia.
  - intros [= <-]. split; [simpl; lia|]. split.
    + apply HasPrefix_spec in Hp as [t Ht]. now exists t.
    + intros; simpl; lia.
  - destruct (Index s sub) as [k|] eqn:Hk; [|discriminate].
    intros [= <-]. destruct (IH k eq_refl) as (Hle & [post Hpost] & Hmin).
    split; [simpl; lia|]. split.
    + exists post. simpl. now rewrite <- Hpost.
    + intros [|d pre'] post' Heq.
      * exfalso. simpl in Heq. rewrite Heq, HasPrefix_app in Hp. discriminate.
      * simpl in Heq. injection Heq as -> Heq.
        specialize (Hmin _ _ Heq). simpl.
        rewrite take_length in * by lia. lia.
Qed.

Lemma Index_None (s sub : string) : Index s sub = None -> ~ occurs sub s.
Proof.
  induction s as [|c s IH]; rewrite Index_unfold;
    destruct (HasPrefix _ sub) eqn:Hp; try discriminate.
  - intros _ (pre & post & Heq). destruct pre; [|discriminate]. simpl in Heq.
    rewrite Heq, HasPrefix_app in Hp. discriminate.
  - destruct (Index s sub) eqn:Hk; [discriminate|]. intros _ (pre & post & Heq).
    destruct pre as [|d pre]; simpl in Heq.
    + rewrite Heq, HasPrefix_app in Hp. discriminate.
    + injection Heq as -> Heq. apply IH; [reflexivity|]. now exists pre, post.
Qed.

Lemma Contains_spec (s sub : string) : Contains s sub = true <-> occurs sub s.
Proof.
  unfold Contains. rewrite bool_decide_eq_true. split.
  - intros [m Hm]. apply Index_Some in Hm as (_ & [post Hpost] & _).
    now exists (take m s), post.
  - intros Hocc. destruct (Index s sub) eqn:Hi; [eauto|].
    now apply Index_None in Hi.
Qed.

Lemma Contains_false (s sub : string) : Contains s sub = false <-> ~ occurs sub s.
Proof.
  rewrite <- Contains_spec. destruct (Contains s sub); split; easy.
Qed.

Lemma ToUpper_app (a b : string) : ToUpper (a +:+ b) = ToUpper a +:+ ToUpper b.
Proof. induction a as [|x a IH]; simpl; [reflexivity | now rewrite IH]. Qed.

Lemma ToUpper_app_inv (q x y : string) :
  ToUpper q = x +:+ y ->
  exists a b, q = a +:+ b /\ ToUpper a = x /\ ToUpper b = y.
Proof.
  revert q. induction x as [|c x IH]; intros q Hq; simpl in Hq.
  - now exists "", q.
  - destruct q as [|d q]; [discriminate|]. simpl in Hq. injection Hq as Hc Hq.
    destruct (IH _ Hq) as (a & b & -> & Ha & Hb).
    exists (String d a), b. simpl. now rewrite Hc, Ha.
Qed.

(** Some word of [w] of the text has [word] as its upper-cased form. *)
Lemma occurs_ToUpper (word q : string) :
  occurs word (ToUpper q) <-> exists w, ToUpper w = word /\ occurs w q.
Proof.
  split.
  - intros (pre & post & Heq).
    apply ToUpper_app_inv in Heq as (a & r & -> & Ha & Hr).
    apply ToUpper_app_inv in Hr as (w & b & -> & Hw & Hb).
    exists w. split; [assumption | now exists a, b].
  - intros (w & Hw & pre & post & ->). rewrite !ToUpper_app, Hw.
    now exists (ToUpper pre), (ToUpper post).
Qed.

(** The functions at work. *)
Example Split_statements :
  Split "INSERT INTO t VALUES (1); INSERT INTO t VALUES (2);" ";" =
    ["INSERT INTO t VALUES (1)"; " INSERT INTO t VALUES (2)"; ""].
Proof. reflexivity. Qed.

Example Split_no_separator : Split "SELECT 1" "-- CHART:" = ["SELECT 1"].
Proof. reflexivity. Qed.

Example Split_two_markers :
  Split "SELECT 1; -- CHART: bar -- CHART: pie" "-- CHART:" =
    ["SELECT 1; "; " bar "; " pie"].
Proof. reflexivity. Qed.

Example TrimSpace_both_ends :
  TrimSpace (" " +:+ LF +:+ "a b" +:+ LF +:+ " ") = "a b".
Proof. reflexivity. Qed.

(** White space beyond ASCII is cut too (U+00A0, U+2003, U+3000); bytes
    that are no encoding of a rune (a lone continuation byte, a cut-off
    sequence) are kept. *)
Example TrimSpace_beyond_ascii :
  TrimSpace (bytes [194; 160] +:+ "a b" +:+ bytes [226; 128; 131; 227; 128; 128]) = "a b".
Proof. reflexivity. Qed.

Example TrimSpace_no_rune :
  TrimSpace (bytes [160] +:+ "a b" +:+ bytes [194] +:+ " ") =
    bytes [160] +:+ "a b" +:+ bytes [194].
Proof. reflexivity. Qed.

Example TrimPrefix_fence : TrimPrefix "```sql SELECT 1" "```sql" = " SELECT 1".
Proof. reflexivity. Qed.

Example TrimSuffix_fence : TrimSuffix "SELECT 1```" "```" = "SELECT 1".
Proof. reflexivity. Qed.

Example ToUpper_mixed : ToUpper "Drop table [x]; -- ok_1" = "DROP TABLE [X]; -- OK_1".
Proof. reflexivity. Qed.

End StringFacts.

(** ** The safety filter *)

Module SafetyFilter.
Import Strings database StringFacts.

Lemma scan_false (u : string) (words : list string) :
  scan u words = false <-> exists word, word ∈ words /\ occurs word u.
Proof.
  induction words as [|w words IH]; simpl.
  - split; [discriminate | intros (word & Hin & _); inversion Hin].
  - destruct (Contains u w) eqn:Hc.
    + split; [intros _ | reflexivity]. exists w. split; [left|].
      now apply Contains_spec.
    + rewrite IH. apply Contains_false in Hc. split.
      * intros (word & Hin & Hocc). exists word. split; [now right | assumption].
      * intros (word & Hin & Hocc). apply elem_of_cons in Hin as [->|Hin];
          [contradiction | now exists word].
Qed.

(** C1. [IsQuerySafe q] is [false] exactly when the upper-cased text of [q]
    contains one of the keywords DROP, DELETE, UPDATE, ALTER, TRUNCATE as a
    substring.  So it is [false] for every text in which a keyword occurs
    in any letter-casing ([w] with [ToUpper w] the keyword), and [true] for
    every text in which no keyword occurs in any casing, whatever the text
    does. *)
Theorem IsQuerySafe_denylist (q : string) :
  (IsQuerySafe q = false <->
     exists word, word ∈ forbidden /\ occurs word (ToUpper q))
  /\ (forall word w, word ∈ forbidden -> ToUpper w = word -> occurs w q ->
        IsQuerySafe q = false)
  /\ ((forall word w, word ∈ forbidden -> ToUpper w = word -> ~ occurs w q) ->
        IsQuerySafe q = true).
Proof.
  unfold IsQuerySafe. split; [apply scan_false|]. split.
  - intros word w Hin Hw Hocc. apply scan_false. exists word.
    split; [assumption|]. apply occurs_ToUpper. now exists w.
  - intros Hnone. destruct (scan (ToUpper q) forbidden) eqn:Hs; [reflexivity|].
    apply scan_false in Hs as (word & Hin & Hocc).
    apply occurs_ToUpper in Hocc as (w & Hw & Hocc).
    now destruct (Hnone word w Hin Hw).
Qed.

(** The filter at work: any casing is caught; a keyword inside an
    identifier is caught too; a destructive statement spelt without the
    keywords passes. *)
Example IsQuerySafe_drop : IsQuerySafe "drop table restaurants" = false.
Proof. reflexivity. Qed.

Example IsQuerySafe_mixed_case : IsQuerySafe "SELECT 1; TrUnCaTe restaurants" = false.
Proof. reflexivity. Qed.

Example IsQuerySafe_identifier : IsQuerySafe "SELECT * FROM updates" = false.
Proof. reflexivity. Qed.

Example IsQuerySafe_select : IsQuerySafe "SELECT city, COUNT(*) FROM restaurants GROUP BY city" = true.
Proof. reflexivity. Qed.

Example IsQuerySafe_destructive_passes :
  IsQuerySafe "DO $$ BEGIN EXECUTE 'DR' || 'OP TABLE restaurants'; END $$" = true.
Proof. reflexivity. Qed.

End SafetyFilter.
(** ** Running the introspector *)

Module Introspection.
Import Strings database StringFacts.

Section Runs.
Context `{Backend}.

(** The world behind a call that only adds to the trace. *)
Definition logged (w : World) (events : list Event) : World :=
  {| db := db w; trace := trace w ++ events |}.

Lemma logged_logged (w : World) (e1 e2 : list Event) :
  logged (logged w e1) e2 = logged w (e1 ++ e2).
Proof. unfold logged; simpl. now rewrite <- List.app_assoc. Qed.

Lemma GetSchema_run (w : World) (c : Catalog) :
  catalog (db w) = Ok c ->
  GetSchema w =
    (schemaLoop (map Ok (selectSchema c)) "" "", logged w [Introspected schemaQuery]).
Proof. intros Hc. unfold GetSchema, bind, emit, logged; simpl. now rewrite Hc. Qed.

Lemma GetSchema_down (w : World) (e : string) :
  catalog (db w) = Err e ->
  GetSchema w = (Err e, logged w [Introspected schemaQuery]).
Proof. intros Hc. unfold GetSchema, bind, emit, logged; simpl. now rewrite Hc. Qed.

Lemma GetTables_run (w : World) (c : Catalog) :
  catalog (db w) = Ok c ->
  GetTables w =
    (tablesLoop (map Ok (selectTables c)) [], logged w [Introspected tablesQuery]).
Proof. intros Hc. unfold GetTables, bind, emit, logged; simpl. now rewrite Hc. Qed.

End Runs.

(** A cursor whose rows all scan is read to its end. *)
Lemma tablesLoop_Ok (names acc : list string) :
  tablesLoop (map Ok names) acc = Ok (acc ++ names).
Proof.
  revert acc. induction names as [|n names IH]; intros acc; simpl.
  - now rewrite List.app_nil_r.
  - rewrite IH. now rewrite <- List.app_assoc.
Qed.

Lemma schemaLoop_Ok (rows : list (string * string * string)) (b cur : string) :
  exists text, schemaLoop (map Ok rows) b cur = Ok text.
Proof.
  revert b cur. induction rows as [|[[t c] d] rows IH]; intros b cur; simpl.
  - eauto.
  - destruct (negb (String.eqb t cur)); apply IH.
Qed.

Lemma columnsFrom_table (t : Table) (i : nat) (cols : list Column) (r : ColumnsRow) :
  r ∈ columnsFrom t i cols ->
  c_table_schema r = table_schema t /\ c_table_name r = table_name t /\
  (i <= c_ordinal_position r)%nat.
Proof.
  revert i. induction cols as [|col cols IH]; intros i Hr; simpl in Hr.
  - inversion Hr.
  - apply elem_of_cons in Hr as [->|Hr]; simpl; [auto|].
    destruct (IH _ Hr) as (? & ? & ?). repeat split; auto with lia.
Qed.

Lemma filter_none {A} (P : A -> Prop) `{forall x, Decision (P x)} (l : list A) :
  (forall x, x ∈ l -> ~ P x) -> filter P l = [].
Proof.
  induction l as [|x l IH]; intros Hl; [reflexivity|].
  rewrite filter_cons_False by (apply Hl; now left).
  apply IH. intros y Hy. apply Hl. now right.
Qed.

Lemma filter_all {A} (P : A -> Prop) `{forall x, Decision (P x)} (l : list A) :
  (forall x, x ∈ l -> P x) -> filter P l = l.
Proof.
  induction l as [|x l IH]; intros Hl; [reflexivity|].
  rewrite filter_cons_True by (apply Hl; now left).
  f_equal. apply IH. intros y Hy. apply Hl. now right.
Qed.

(** No relation in the namespace [public]: the schema query has no row. *)
Lemma columns_not_public (c : Catalog) :
  (forall t, t ∈ c -> table_schema t <> "public") ->
  filter (fun r => c_table_schema r = "public") (information_schema_columns c) = [].
Proof.
  intros Hnone. apply filter_none. intros r Hr.
  unfold information_schema_columns in Hr.
  apply list_elem_of_In, in_flat_map in Hr as (t & Ht & Hr).
  apply list_elem_of_In in Ht, Hr.
  apply columnsFrom_table in Hr as (-> & _). now apply Hnone.
Qed.

Lemma selectSchema_not_public (c : Catalog) :
  (forall t, t ∈ c -> table_schema t <> "public") -> selectSchema c = [].
Proof. intros Hnone. unfold selectSchema. now rewrite columns_not_public. Qed.

End Introspection.

(** ** The generation handler *)

Module Generation.
Import Strings database gemini web StringFacts Introspection.

Section Handler.
Context `{Backend} `{Generator}.

(** C9. A POST request with a well-formed body, on a store whose catalog
    can be read and holds no relation in the namespace [public], is
    answered with the error [No tables found in database] (status 400),
    the handler's form of [EmptySchemaError];
    the only call issued is the catalog query: the generator is not asked
    and no statement is executed, and the store is as before. *)
Theorem generateData_no_tables (r : Request GenerateRequest)
    (req : GenerateRequest) (w : World) (c : Catalog) :
  Method r = "POST" -> Body r = Some req ->
  catalog (db w) = Ok c ->
  (forall t, t ∈ c -> table_schema t <> "public") ->
  generateData r w =
    (Error "No tables found in database" 400,
     logged w [Introspected schemaQuery]).
Proof.
  intros Hm Hb Hc Hnone. unfold generateData. rewrite Hm, Hb. simpl.
  unfold bind at 1. rewrite (GetSchema_run _ _ Hc).
  rewrite selectSchema_not_public by assumption. reflexivity.
Qed.

End Handler.

(** C9 on the sample store with an empty catalog, and with a catalog that
    holds a relation outside [public] only. *)
Lemma generateData_no_tables_sample :
  let g := Samples.says "INSERT INTO t VALUES (1);" in
  let r := Samples.post (@Build_GenerateRequest g tt 100%Z) in
  @generateData Samples.shop g r (Samples.start [Samples.audit] Samples.noRows) =
    (Error "No tables found in database" 400,
     logged (Samples.start [Samples.audit] Samples.noRows) [Introspected schemaQuery]).
Proof.
  intros g r.
  apply (@generateData_no_tables Samples.shop g r (@Build_GenerateRequest g tt 100%Z)
           (Samples.start [Samples.audit] Samples.noRows) [Samples.audit]);
    try reflexivity.
  intros t Ht. apply list_elem_of_singleton in Ht as ->. discriminate.
Defined.

End Generation.

(** ** The split of [strings.Split] at the first separator *)

Module SplitFacts.
Import Strings StringFacts.

(** The text up to the next occurrence of [sep], or all of it. *)
Definition upTo (sep rest : string) : string :=
  match Index rest sep with
  | None => rest
  | Some k => take k rest
  end.

Lemma skip_skip (a b : nat) (s : string) : skip (a + b) s = skip b (skip a s).
Proof.
  revert s. induction a as [|a IH]; intros s; simpl; [reflexivity|].
  destruct s as [|c s]; [now destruct b | apply IH].
Qed.

Lemma Index_nonempty (s sep : string) (m : nat) :
  sep <> "" -> Index s sep = Some m -> exists k, String.length s = S k.
Proof.
  intros Hsep Hm. destruct s as [|c s]; [|now exists (String.length s)].
  rewrite Index_unfold in Hm. destruct sep; [congruence | discriminate].
Qed.

(** With a separator in the text, [Split] has at least two parts: the
    text before the first separator, and the text behind it up to the
    next one. *)
Lemma Split_first (s sep : string) (m : nat) :
  sep <> "" -> Index s sep = Some m ->
  exists tail,
    Split s sep = take m s :: upTo sep (skip (m + String.length sep) s) :: tail.
Proof.
  intros Hsep Hm. destruct (Index_nonempty _ _ _ Hsep Hm) as [k Hk].
  unfold Split. rewrite Hk. cbn [splitLoop]. rewrite Hm. unfold upTo.
  destruct (Index (skip (m + String.length sep) s) sep) as [j|]; eauto.
Qed.

Lemma firstAt_rest (pre sep s : string) :
  firstAt pre sep s ->
  s = pre +:+ sep +:+ skip (String.length pre + String.length sep) s.
Proof.
  intros [[post Hpost] _]. rewrite Hpost at 2.
  now rewrite skip_skip, !skip_app.
Qed.

End SplitFacts.

(** ** Trimming keeps what lies inside *)

Module TrimFacts.
Import Strings StringFacts.

Fixpoint allb (P : ascii -> bool) (s : string) : bool :=
  match s with
  | EmptyString => true
  | String c s' => P c && allb P s'
  end.

(** [t] is [s] without a margin of bytes satisfying [P] on either side. *)
Definition trimmed (P : ascii -> bool) (s t : string) : Prop :=
  exists p q, s = p +:+ t +:+ q /\ allb P p = true /\ allb P q = true.

Lemma allb_app (P : ascii -> bool) (a b : string) :
  allb P (a +:+ b) = allb P a && allb P b.
Proof.
  induction a as [|x a IH]; simpl; [reflexivity|].
  now rewrite IH, andb_assoc.
Qed.

Lemma allb_weaken (P Q : ascii -> bool) (s : string) :
  (forall c, P c = true -> Q c = true) -> allb P s = true -> allb Q s = true.
Proof.
  intros HPQ. induction s as [|x s IH]; simpl; [reflexivity|].
  intros [Hx Hs]%andb_true_iff. rewrite (HPQ _ Hx). now apply IH.
Qed.

Lemma trimmed_refl (P : ascii -> bool) (s : string) : trimmed P s s.
Proof. exists "", "". now rewrite app_nil_r. Qed.

Lemma trimmed_trans (P : ascii -> bool) (s t u : string) :
  trimmed P s t -> trimmed P t u -> trimmed P s u.
Proof.
  intros (p & q & -> & Hp & Hq) (p' & q' & -> & Hp' & Hq').
  exists (p +:+ p'), (q' +:+ q). rewrite !allb_app, Hp, Hq, Hp', Hq'.
  split; [|now split]. now rewrite !app_assoc.
Qed.

Lemma trimmed_left (P : ascii -> bool) (p t : string) :
  allb P p = true -> trimmed P (p +:+ t) t.
Proof. intros Hp. exists p, "". now rewrite app_nil_r. Qed.

Lemma trimmed_right (P : ascii -> bool) (t q : string) :
  allb P q = true -> trimmed P (t +:+ q) t.
Proof. intros Hq. now exists "", q. Qed.

(** An occurrence in the inner text is one in the outer text. *)
Lemma trimmed_occurs (P : ascii -> bool) (s t sub : string) :
  trimmed P s t -> occurs sub t -> occurs sub s.
Proof.
  intros (p & q & -> & _) (pre & post & ->).
  exists (p +:+ pre), (post +:+ q). now rewrite !app_assoc.
Qed.

(** An occurrence starting with a byte outside [P] lies behind a margin of
    [P] bytes. *)
Lemma occurs_behind (P : ascii -> bool) (p t sub' : string) (c : ascii) :
  P c = false -> allb P p = true ->
  occurs (String c sub') (p +:+ t) -> occurs (String c sub') t.
Proof.
  intros Hc. induction p as [|x p IH]; simpl; [auto|].
  intros [Hx Hp]%andb_true_iff (pre & post & Heq).
  destruct pre as [|y pre]; simpl in Heq.
  - injection Heq as -> _. congruence.
  - injection Heq as _ Heq. apply IH; [assumption|]. now exists pre, post.
Qed.

(** A text ending with a byte outside [P] that runs into a margin of [P]
    bytes ends before the margin. *)
Lemma prefix_before (P : ascii -> bool) (x t q post : string) (c : ascii) :
  P c = false -> allb P q = true ->
  x +:+ String c post = t +:+ q -> exists t', t = x +:+ String c t'.
Proof.
  intros Hc Hq. revert t. induction x as [|a x IH]; intros t Heq; simpl in Heq.
  - destruct t as [|b t]; simpl in Heq.
    + subst q. simpl in Hq. rewrite Hc in Hq. discriminate.
    + injection Heq as <- _. now exists t.
  - destruct t as [|b t]; simpl in Heq.
    + subst q. simpl in Hq. rewrite allb_app in Hq. simpl in Hq.
      rewrite Hc, andb_false_r, andb_false_r in Hq. discriminate.
    + injection Heq as <- Heq. destruct (IH _ Heq) as [t' ->]. now exists t'.
Qed.

Lemma occurs_before (P : ascii -> bool) (t q sub' : string) (c : ascii) :
  P c = false -> allb P q = true ->
  occurs (sub' +:+ String c "") (t +:+ q) -> occurs (sub' +:+ String c "") t.
Proof.
  intros Hc Hq (pre & post & Heq).
  assert ((pre +:+ sub') +:+ String c post = t +:+ q) as Heq'
    by (rewrite Heq, !app_assoc; reflexivity).
  destruct (prefix_before P _ _ _ _ _ Hc Hq Heq') as [t' ->].
  exists pre, t'. now rewrite !app_assoc.
Qed.

(** A text that starts and ends with bytes outside [P] occurs in a text
    exactly when it occurs in the text without its margins. *)
Lemma occurs_trimmed (P : ascii -> bool) (s t mid : string) (c d : ascii) :
  P c = false -> P d = false -> trimmed P s t ->
  let sub := String c mid +:+ String d "" in
  occurs sub s <-> occurs sub t.
Proof.
  intros Hc Hd Ht sub. split; [|now apply trimmed_occurs with P].
  destruct Ht as (p & q & -> & Hp & Hq). intros Hocc.
  apply (occurs_behind P) in Hocc; [|assumption..].
  now apply (occurs_before P t q (String c mid) d).
Qed.

Lemma HasSuffix_unfold (s suffix : string) :
  HasSuffix s suffix =
  if String.eqb s suffix then true
  else match s with
       | EmptyString => false
       | String _ s' => HasSuffix s' suffix
       end.
Proof. destruct s; reflexivity. Qed.

Lemma HasSuffix_spec (s suffix : string) :
  HasSuffix s suffix = true -> exists t, s = t +:+ suffix.
Proof.
  induction s as [|c s IH]; rewrite HasSuffix_unfold.
  - destruct (String.eqb_spec "" suffix) as [<-|Hne]; [now exists "" | discriminate].
  - destruct (String.eqb_spec (String c s) suffix) as [<-|Hne]; [now exists ""|].
    intros [t ->]%IH. now exists (String c t).
Qed.

(** The bytes of the encodings of white space. *)
Fixpoint anyb (P : ascii -> bool) (s : string) : bool :=
  match s with
  | EmptyString => false
  | String c s' => P c || anyb P s'
  end.

Definition spaceByte (c : ascii) : bool := existsb (anyb (Ascii.eqb c)) spaces.

Lemma spaces_margin (r : string) : In r spaces -> allb spaceByte r = true.
Proof.
  assert (forallb (allb spaceByte) spaces = true) as Hall by (vm_compute; reflexivity).
  rewrite forallb_forall in Hall. apply Hall.
Qed.

Lemma leadingSpace_Some (s r : string) :
  leadingSpace s = Some r -> In r spaces /\ exists t, s = r +:+ t.
Proof.
  intros [Hin Hp]%List.find_some. split; [exact Hin|]. now apply HasPrefix_spec.
Qed.

Lemma trailingSpace_Some (s r : string) :
  trailingSpace s = Some r -> In r spaces /\ exists t, s = t +:+ r.
Proof.
  intros [Hin Hp]%List.find_some. split; [exact Hin|]. now apply HasSuffix_spec.
Qed.

Lemma take_before (t r : string) :
  take (String.length (t +:+ r) - String.length r) (t +:+ r) = t.
Proof. rewrite app_length, Nat.add_sub. apply take_app. Qed.

(** The trimming functions cut margins. *)
Lemma trimLeftLoop_margin (fuel : nat) (s : string) :
  exists p, s = p +:+ trimLeftLoop fuel s /\ allb spaceByte p = true.
Proof.
  revert s. induction fuel as [|fuel IH]; intros s; cbn [trimLeftLoop];
    [now exists ""|].
  destruct (leadingSpace s) as [r|] eqn:Hr; [|now exists ""].
  apply leadingSpace_Some in Hr as (Hin & t & ->). rewrite skip_app.
  destruct (IH t) as (p & Heq & Hp). exists (r +:+ p). split.
  - rewrite app_assoc. now rewrite <- Heq.
  - now rewrite allb_app, (spaces_margin r Hin), Hp.
Qed.

Lemma trimRightLoop_margin (fuel : nat) (s : string) :
  exists q, s = trimRightLoop fuel s +:+ q /\ allb spaceByte q = true.
Proof.
  revert s. induction fuel as [|fuel IH]; intros s; cbn [trimRightLoop];
    [exists ""; now rewrite app_nil_r|].
  destruct (trailingSpace s) as [r|] eqn:Hr; [|exists ""; now rewrite app_nil_r].
  apply trailingSpace_Some in Hr as (Hin & t & ->). rewrite take_before.
  destruct (IH t) as (q & Heq & Hq). exists (q +:+ r). split.
  - rewrite <- app_assoc. now rewrite <- Heq.
  - now rewrite allb_app, (spaces_margin r Hin), Hq.
Qed.

Lemma TrimLeft_trimmed (s : string) : trimmed spaceByte s (TrimLeft s).
Proof.
  destruct (trimLeftLoop_margin (String.length s) s) as (p & Heq & Hp).
  unfold TrimLeft. rewrite Heq at 1. now apply trimmed_left.
Qed.

Lemma TrimRight_trimmed (s : string) : trimmed spaceByte s (TrimRight s).
Proof.
  destruct (trimRightLoop_margin (String.length s) s) as (q & Heq & Hq).
  unfold TrimRight. rewrite Heq at 1. now apply trimmed_right.
Qed.

Lemma TrimSpace_trimmed (s : string) : trimmed spaceByte s (TrimSpace s).
Proof.
  unfold TrimSpace. apply trimmed_trans with (TrimLeft s).
  - apply TrimLeft_trimmed.
  - apply TrimRight_trimmed.
Qed.

Lemma TrimPrefix_trimmed (P : ascii -> bool) (s prefix : string) :
  allb P prefix = true -> trimmed P s (TrimPrefix s prefix).
Proof.
  intros Hp. unfold TrimPrefix.
  destruct (HasPrefix s prefix) eqn:Hs; [|apply trimmed_refl].
  apply HasPrefix_spec in Hs as [t ->]. rewrite skip_app.
  now apply trimmed_left.
Qed.

Lemma TrimSuffix_trimmed (P : ascii -> bool) (s suffix : string) :
  allb P suffix = true -> trimmed P s (TrimSuffix s suffix).
Proof.
  intros Hp. unfold TrimSuffix.
  destruct (HasSuffix s suffix) eqn:Hs; [|apply trimmed_refl].
  apply HasSuffix_spec in Hs as [t ->].
  rewrite app_length, Nat.add_sub, take_app. now apply trimmed_right.
Qed.

End TrimFacts.

(** ** The query handler *)

Module Query.
Import Strings database gemini web StringFacts SplitFacts Introspection.

Definition marker : string := "-- CHART:".

(** The schema text of a catalog, as the loop of [GetSchema] renders it. *)
Definition schemaOf (c : Catalog) : string :=
  match schemaLoop (map Ok (selectSchema c)) "" "" with
  | Ok text => text
  | Err _ => ""
  end.

Lemma schemaLoop_schemaOf (c : Catalog) :
  schemaLoop (map Ok (selectSchema c)) "" "" = Ok (schemaOf c).
Proof.
  unfold schemaOf. destruct (schemaLoop_Ok (selectSchema c) "" "") as [t Ht].
  now rewrite Ht.
Qed.

(** What [splitChart] returns when the marker is in the text. *)
Lemma splitChart_marker (text : string) :
  occurs marker text ->
  exists execSQL rest,
    text = execSQL +:+ marker +:+ rest /\
    firstAt execSQL marker text /\
    splitChart text (Contains text marker) = (execSQL, TrimSpace (upTo marker rest)).
Proof.
  intros Hocc. pose proof Hocc as Hc. apply Contains_spec in Hc.
  destruct (Index text marker) as [m|] eqn:Hm;
    [|now apply Index_None in Hm].
  destruct (Index_Some _ _ _ Hm) as (Hle & Hfirst).
  destruct (Split_first text marker m) as [tail Hsplit]; [discriminate | exact Hm |].
  exists (take m text), (skip (m + String.length marker) text).
  split; [|split; [exact Hfirst|]].
  - rewrite <- (take_length m text Hle) at 2. now apply firstAt_rest.
  - unfold splitChart. fold marker. rewrite Hc, Hsplit. reflexivity.
Qed.

Lemma splitChart_plain (text : string) :
  ~ occurs marker text ->
  splitChart text (Contains text marker) = (text, "").
Proof.
  intros Hn. apply Contains_false in Hn. unfold splitChart. now rewrite Hn.
Qed.

(** The text of the first candidate as the generator sent it. *)
Definition rawText (resp : GenerateContentResponse) : string :=
  match resp with
  | [] | None :: _ => ""
  | Some parts :: _ => texts parts
  end.

(** The bytes the clean-up of [getResponseText] and [cleanSQL] can cut
    from the ends: the bytes of white space and of the code fence. *)
Definition margin (c : ascii) : bool :=
  TrimFacts.spaceByte c ||
  Ascii.eqb c "`" || Ascii.eqb c "s" || Ascii.eqb c "q" || Ascii.eqb c "l".

Lemma trimmed_space_margin (s t : string) :
  TrimFacts.trimmed TrimFacts.spaceByte s t -> TrimFacts.trimmed margin s t.
Proof.
  intros (p & q & Heq & Hp & Hq). exists p, q. split; [exact Heq|].
  split; (eapply TrimFacts.allb_weaken; [|eassumption]);
    intros c Hc; unfold margin; now rewrite Hc.
Qed.

Lemma clean_trimmed (resp : GenerateContentResponse) :
  TrimFacts.trimmed margin (rawText resp) (cleanSQL (getResponseText resp)).
Proof.
  destruct resp as [|[[|part parts]|] rest]; try apply TrimFacts.trimmed_refl.
  unfold cleanSQL, getResponseText, rawText.
  generalize (texts (part :: parts)). intros raw.
  repeat first
    [ apply TrimFacts.trimmed_refl
    | eapply TrimFacts.trimmed_trans;
      [| first [ apply trimmed_space_margin, TrimFacts.TrimSpace_trimmed
               | apply TrimFacts.TrimPrefix_trimmed; reflexivity
               | apply TrimFacts.TrimSuffix_trimmed; reflexivity ] ] ].
Qed.

(** The clean-up neither removes nor creates a chart marker. *)
Lemma clean_keeps_marker (resp : GenerateContentResponse) :
  occurs marker (rawText resp) <-> occurs marker (cleanSQL (getResponseText resp)).
Proof.
  change marker with (String "-" "- CHART" +:+ String ":" "").
  apply (TrimFacts.occurs_trimmed margin); [reflexivity | reflexivity |].
  apply clean_trimmed.
Qed.

(** A response without content gives no text, and holds no marker. *)
Lemma nilContent_text (resp : GenerateContentResponse) :
  nilContent resp = true -> getResponseText resp = "" /\ rawText resp = "".
Proof. destruct resp as [|[parts|] rest]; [discriminate.. | now split]. Qed.

Lemma marker_content (resp : GenerateContentResponse) :
  occurs marker (rawText resp) -> nilContent resp = false.
Proof.
  destruct (nilContent resp) eqn:Hnil; [|reflexivity].
  destruct (nilContent_text _ Hnil) as [_ ->]. intros Hocc.
  now apply Contains_spec in Hocc.
Qed.

Section Handler.
Context `{Backend} `{Generator}.

(** A well-formed request, a readable catalog and a generator that
    answers: what every statement about a generated query starts from. *)
Variables (r : Request string) (prompt : string) (w : World) (c : Catalog)
  (resp : GenerateContentResponse).
Hypothesis Hmethod : Method r = "POST".
Hypothesis Hbody : Body r = Some prompt.
Hypothesis Hcatalog : catalog (db w) = Ok c.
Hypothesis Hanswer :
  GenerateContent querySystemInstruction lowTemperature 1024
    (queryInput (schemaOf c) prompt) = Ok resp.

(** The generated text as [query] receives it, and the two calls issued up
    to there. *)
Let generatedSQL : string := cleanSQL (getResponseText resp).
Let asked : list Event :=
  [Introspected schemaQuery; Asked (queryInput (schemaOf c) prompt)].

(** On an answer without content the handler panics, behind the question
    to the generator. *)
Lemma query_panics : nilContent resp = true -> query r w = (Aborted, logged w asked).
Proof.
  intros Hnil. unfold query. rewrite Hmethod, Hbody, String.eqb_refl. cbn [negb].
  unfold bind at 1. rewrite (GetSchema_run _ _ Hcatalog), schemaLoop_schemaOf.
  unfold bind at 1. unfold NaturalLanguageToSQL, bind at 1, emit. cbn [db trace logged].
  rewrite Hanswer, Hnil. unfold ret, logged, asked. cbn [db trace].
  now rewrite <- List.app_assoc.
Qed.

Lemma query_generated :
  nilContent resp = false ->
  query r w =
    (let '(execSQL, chartType) :=
       splitChart generatedSQL (Contains generatedSQL marker) in
     if negb (IsQuerySafe execSQL) then
       ret (Error "Unsafe query generated. Operation blocked." 403)
     else
       do rows <- DB_Query execSQL;
       match rows with
       | Err e =>
           ret (Error ("Query execution error: " +:+ e +:+ LF +:+
                       "SQL: " +:+ execSQL) 500)
       | Ok rows =>
           ret (QueryJSON generatedSQL (materialize (Columns rows) (Next rows))
                  (Contains generatedSQL marker) chartType)
       end) (logged w asked).
Proof.
  intros Hnil. unfold query. rewrite Hmethod, Hbody, String.eqb_refl. cbn [negb].
  unfold bind at 1. rewrite (GetSchema_run _ _ Hcatalog), schemaLoop_schemaOf.
  unfold bind at 1. unfold NaturalLanguageToSQL, bind at 1, emit. cbn [db trace logged].
  rewrite Hanswer, Hnil. unfold ret at 1. unfold logged, asked. cbn [db trace].
  rewrite <- List.app_assoc. reflexivity.
Qed.

(** C3. When the safety filter rejects the executable part of the
    generated text, [query] answers with the error [Unsafe query
    generated. Operation blocked.] (status 403), the handler's form of
    [UnsafeQueryError].  The calls issued are the
    catalog query and the question to the generator, nothing else: the
    statement is not handed to the store, and the store is as before. *)
Theorem query_unsafe_blocked :
  IsQuerySafe (splitChart generatedSQL (Contains generatedSQL marker)).1 = false ->
  query r w =
    (Error "Unsafe query generated. Operation blocked." 403, logged w asked).
Proof.
  intros Hunsafe. destruct (nilContent resp) eqn:Hnil.
  - exfalso. subst generatedSQL.
    destruct (nilContent_text _ Hnil) as [Htext _]. rewrite Htext in Hunsafe.
    discriminate.
  - rewrite query_generated by assumption.
    destruct (splitChart generatedSQL _) as [execSQL chartType]. simpl in Hunsafe.
    now rewrite Hunsafe.
Qed.

(** A generated query that passes the filter is handed to the store. *)
Lemma query_safe (execSQL chartType : string) :
  nilContent resp = false ->
  splitChart generatedSQL (Contains generatedSQL marker) = (execSQL, chartType) ->
  IsQuerySafe execSQL = true ->
  query r w =
    match run execSQL (db w) with
    | Ok (s, rows) =>
        (QueryJSON generatedSQL (materialize (Columns rows) (Next rows))
           (Contains generatedSQL marker) chartType,
         {| db := s; trace := trace w ++ asked ++ [Queried execSQL] |})
    | Err e =>
        (Error ("Query execution error: " +:+ e +:+ LF +:+ "SQL: " +:+ execSQL) 500,
         logged w (asked ++ [Queried execSQL]))
    end.
Proof.
  intros Hnil Hsplit Hsafe. rewrite (query_generated Hnil), Hsplit, Hsafe. cbn [negb].
  unfold bind at 1, DB_Query, bind at 1, emit. cbn [db trace logged].
  destruct (run execSQL (db w)) as [[s rows]|e]; unfold ret, logged; cbn [db trace];
    now rewrite <- List.app_assoc.
Qed.

(** C4. When the output of the generator contains the chart marker, the
    generated text splits as [execSQL ++ marker ++ rest] at the first
    marker; the statement handed to the store (once the filter lets it
    pass) is [execSQL], the text before the marker; the reply carries the
    whole generated text in its field [sql], the flag [isChart] set, and
    as [chartType] the trimmed text behind the marker (up to a next
    marker, if there is one). *)
Theorem query_chart_directive :
  occurs marker (rawText resp) ->
  exists execSQL rest,
    generatedSQL = execSQL +:+ marker +:+ rest /\
    firstAt execSQL marker generatedSQL /\
    (IsQuerySafe execSQL = true ->
     query r w =
       match run execSQL (db w) with
       | Ok (s, rows) =>
           (QueryJSON generatedSQL (materialize (Columns rows) (Next rows))
              true (TrimSpace (upTo marker rest)),
            {| db := s; trace := trace w ++ asked ++ [Queried execSQL] |})
       | Err e =>
           (Error ("Query execution error: " +:+ e +:+ LF +:+ "SQL: " +:+ execSQL) 500,
            logged w (asked ++ [Queried execSQL]))
       end).
Proof.
  intros Hraw. pose proof (marker_content _ Hraw) as Hnil.
  apply clean_keeps_marker in Hraw. fold generatedSQL in Hraw.
  destruct (splitChart_marker _ Hraw) as (execSQL & rest & Heq & Hfirst & Hsplit).
  exists execSQL, rest. split; [exact Heq|]. split; [exact Hfirst|].
  intros Hsafe. rewrite (query_safe _ _ Hnil Hsplit Hsafe).
  apply Contains_spec in Hraw. now rewrite Hraw.
Qed.

End Handler.

(** C3 on the sample store: the question of the specification, answered
    by the generator with a DROP statement. *)
Lemma query_unsafe_blocked_sample :
  let g := Samples.says "DROP TABLE restaurants;" in
  let w := Samples.start [Samples.restaurants] Samples.noRows in
  @query Samples.shop g (Samples.post "drop the restaurants table") w =
    (Error "Unsafe query generated. Operation blocked." 403,
     logged w [Introspected schemaQuery;
               Asked (queryInput (schemaOf [Samples.restaurants])
                        "drop the restaurants table")]).
Proof.
  intros g w.
  apply (@query_unsafe_blocked Samples.shop g _ "drop the restaurants table" w
           [Samples.restaurants] [Some [Text "DROP TABLE restaurants;"]]);
    reflexivity.
Defined.

(** The refusal text of the generator's directive holds no keyword: it
    passes the filter and is handed to the store, which rejects it. *)
Example query_refusal_is_executed :
  let g := Samples.says "ERROR: Unauthorized" in
  let w := Samples.start [Samples.restaurants] Samples.noRows in
  (@query Samples.shop g (Samples.post "delete all restaurants") w).1 =
    Error ("Query execution error: pq: syntax error" +:+ LF +:+
           "SQL: ERROR: Unauthorized") 500
  /\ Queried "ERROR: Unauthorized" ∈
       trace (@query Samples.shop g (Samples.post "delete all restaurants") w).2.
Proof. split; [reflexivity|]. vm_compute. do 2 right. left. Qed.

Definition fencedBarChart : string :=
  "```sql" +:+ LF +:+
  "SELECT city, COUNT(*) as count FROM restaurants GROUP BY city; -- CHART: bar" +:+ LF +:+
  "```".

Definition cityCounts : Rows :=
  {| Columns := ["city"; "count"];
     Next := [Scanned [Str "Lima"; Int64 3]; Scanned [Str "Cusco"; Int64 1]];
     RowsErr := None |}.

(** C4 on the sample store, the generator answering as in the example of
    its directive, inside a code fence. *)
Lemma query_chart_directive_sample :
  let g := Samples.says fencedBarChart in
  let w := Samples.start [Samples.restaurants] cityCounts in
  let r := Samples.post "show a bar chart of restaurants by city" in
  let generatedSQL := cleanSQL (getResponseText [Some [Text fencedBarChart]]) in
  exists execSQL rest,
    generatedSQL = execSQL +:+ marker +:+ rest /\
    firstAt execSQL marker generatedSQL /\
    (IsQuerySafe execSQL = true ->
     @query Samples.shop g r w =
       match @run Samples.shop execSQL (db w) with
       | Ok (s, rows) =>
           (QueryJSON generatedSQL (materialize (Columns rows) (Next rows))
              true (TrimSpace (upTo marker rest)),
            {| db := s;
               trace := trace w ++
                 [Introspected schemaQuery;
                  Asked (queryInput (schemaOf [Samples.restaurants])
                           "show a bar chart of restaurants by city")] ++
                 [Queried execSQL] |})
       | Err e =>
           (Error ("Query execution error: " +:+ e +:+ LF +:+ "SQL: " +:+ execSQL) 500,
            logged w
              ([Introspected schemaQuery;
                Asked (queryInput (schemaOf [Samples.restaurants])
                         "show a bar chart of restaurants by city")] ++
               [Queried execSQL]))
       end).
Proof.
  intros g w r generatedSQL.
  apply (@query_chart_directive Samples.shop g r
           "show a bar chart of restaurants by city" w [Samples.restaurants]
           [Some [Text fencedBarChart]]); try reflexivity.
  exists ("```sql" +:+ LF +:+
          "SELECT city, COUNT(*) as count FROM restaurants GROUP BY city; "),
         (" bar" +:+ LF +:+ "```").
  reflexivity.
Defined.

Example query_chart_directive_run :
  let g := Samples.says fencedBarChart in
  let w := Samples.start [Samples.restaurants] cityCounts in
  let r := Samples.post "show a bar chart of restaurants by city" in
  (@query Samples.shop g r w).1 =
    QueryJSON
      "SELECT city, COUNT(*) as count FROM restaurants GROUP BY city; -- CHART: bar"
      [ <["city" := Str "Lima"]> (<["count" := Int64 3]> ∅);
        <["city" := Str "Cusco"]> (<["count" := Int64 1]> ∅) ]
      true "bar"
  /\ last (trace (@query Samples.shop g r w).2) =
       Some (Queried "SELECT city, COUNT(*) as count FROM restaurants GROUP BY city; ").
Proof. split; vm_compute; reflexivity. Qed.

(** *** What a reply of [query] with rows is made of *)

Section Replies.
Context `{Backend} `{Generator}.

Lemma query_reply (r : Request string) (w : World) (sql : string)
    (result : list (gmap string Value)) (isChart : bool) (chartType : string) :
  (query r w).1 = QueryJSON sql result isChart chartType ->
  exists prompt c resp,
    Body r = Some prompt /\ catalog (db w) = Ok c /\
    GenerateContent querySystemInstruction lowTemperature 1024
      (queryInput (schemaOf c) prompt) = Ok resp /\
    sql = cleanSQL (getResponseText resp) /\
    isChart = Contains sql marker /\
    chartType = (splitChart sql (Contains sql marker)).2.
Proof.
  unfold query.
  destruct (String.eqb_spec (Method r) "POST") as [Hm|Hm]; [|discriminate].
  destruct (Body r) as [prompt|] eqn:Hb; [|discriminate]. cbn [negb].
  destruct (catalog (db w)) as [c|e] eqn:Hc.
  - unfold bind at 1. rewrite (GetSchema_run _ _ Hc), schemaLoop_schemaOf.
    unfold bind at 1, NaturalLanguageToSQL, bind at 1, emit. cbn [db trace logged].
    destruct (GenerateContent _ _ _ _) as [resp|e] eqn:Hg; [|discriminate].
    destruct (nilContent resp); [discriminate|].
    unfold ret at 1. fold marker.
    destruct (splitChart _ _) as [execSQL ct] eqn:Hs.
    destruct (IsQuerySafe execSQL); [|discriminate]. cbn [negb].
    unfold bind at 1, DB_Query, bind at 1, emit. cbn [db trace].
    destruct (run execSQL _) as [[s rows]|e]; [|discriminate].
    intros [= <- _ <- <-]. exists prompt, c, resp.
    rewrite Hs. auto 10.
  - unfold bind at 1. rewrite (GetSchema_down _ _ Hc). discriminate.
Qed.

(** C5, as the code has it.  In every reply of [query] that carries
    rows, [isChart] is set exactly when the output of the generator
    contains the chart marker, whatever the question says; [chartType] is
    then the trimmed text behind the first marker (up to a next one), and
    it is empty when [isChart] is not set. *)
Theorem query_chart_flag (r : Request string) (w : World) (sql : string)
    (result : list (gmap string Value)) (isChart : bool) (chartType : string) :
  (query r w).1 = QueryJSON sql result isChart chartType ->
  (exists prompt c resp,
     Body r = Some prompt /\ catalog (db w) = Ok c /\
     GenerateContent querySystemInstruction lowTemperature 1024
       (queryInput (schemaOf c) prompt) = Ok resp /\
     (isChart = true <-> occurs marker (rawText resp)))
  /\ (isChart = false -> chartType = "")
  /\ (isChart = true ->
      exists execSQL rest,
        sql = execSQL +:+ marker +:+ rest /\ firstAt execSQL marker sql /\
        chartType = TrimSpace (upTo marker rest)).
Proof.
  intros Hreply.
  destruct (query_reply _ _ _ _ _ _ Hreply)
    as (prompt & c & resp & Hb & Hc & Hg & Hsql & Hflag & Hkind).
  split; [|split].
  - exists prompt, c, resp. repeat split; try assumption.
    + intros ->. apply clean_keeps_marker. rewrite <- Hsql.
      now apply Contains_spec.
    + intros Hraw. apply clean_keeps_marker in Hraw. rewrite <- Hsql in Hraw.
      apply Contains_spec in Hraw. congruence.
  - intros ->. rewrite Hkind, <- Hflag. reflexivity.
  - intros ->. symmetry in Hflag. apply Contains_spec in Hflag.
    destruct (splitChart_marker _ Hflag) as (execSQL & rest & Heq & Hfirst & Hsplit).
    exists execSQL, rest. rewrite Hkind, Hsplit. auto.
Qed.

End Replies.

(** The intent words and the chart kinds of the specification. *)
Definition intentWords : list string :=
  ["chart"; "graph"; "plot"; "show"; "draw"; "visualize"].

Definition recognizedKinds : list string := ["bar"; "pie"; "line"; "doughnut"].

(** A question carries an explicit chart intent word (in any casing). *)
Definition hasChartIntent (question : string) : bool :=
  existsb (fun word => Contains (ToUpper question) (ToUpper word)) intentWords.

(** C5 on the sample store. *)
Lemma query_chart_flag_sample :
  let g := Samples.says fencedBarChart in
  let w := Samples.start [Samples.restaurants] Samples.noRows in
  let r := Samples.post "show a bar chart of restaurants by city" in
  (exists prompt c resp,
     Body r = Some prompt /\ @catalog Samples.shop (db w) = Ok c /\
     @GenerateContent g querySystemInstruction lowTemperature 1024
       (queryInput (schemaOf c) prompt) = Ok resp /\
     (true = true <-> occurs marker (rawText resp)))
  /\ (true = false -> "bar" = "")
  /\ (true = true ->
      exists execSQL rest,
        "SELECT city, COUNT(*) as count FROM restaurants GROUP BY city; -- CHART: bar"
          = execSQL +:+ marker +:+ rest /\
        firstAt execSQL marker
          "SELECT city, COUNT(*) as count FROM restaurants GROUP BY city; -- CHART: bar" /\
        "bar" = TrimSpace (upTo marker rest)).
Proof.
  intros g w r.
  apply (@query_chart_flag Samples.shop g r w _ [] true "bar"). reflexivity.
Defined.

(** C5 as stated fails on the code, which never reads the question: with
    an intent word in the question and a generator that sends no marker
    the reply has [isChart] unset; without an intent word and with a
    marker it is set; and a kind outside the four recognized ones is
    passed on as it is. *)
Lemma query_chart_flag_ignores_question :
  let w := Samples.start [Samples.restaurants] Samples.noRows in
  (hasChartIntent "show a bar chart of restaurants by city" = true /\
   (@query Samples.shop
      (Samples.says "SELECT city, COUNT(*) FROM restaurants GROUP BY city;")
      (Samples.post "show a bar chart of restaurants by city") w).1 =
     QueryJSON "SELECT city, COUNT(*) FROM restaurants GROUP BY city;" [] false "")
  /\ (hasChartIntent "how many restaurants are there per city" = false /\
      (@query Samples.shop
         (Samples.says "SELECT city, COUNT(*) FROM restaurants GROUP BY city; -- CHART: pie")
         (Samples.post "how many restaurants are there per city") w).1 =
        QueryJSON "SELECT city, COUNT(*) FROM restaurants GROUP BY city; -- CHART: pie"
          [] true "pie")
  /\ (hasChartIntent "plot restaurants by city" = true /\
      (@query Samples.shop
         (Samples.says "SELECT city, COUNT(*) FROM restaurants GROUP BY city; -- CHART: radar")
         (Samples.post "plot restaurants by city") w).1 =
        QueryJSON "SELECT city, COUNT(*) FROM restaurants GROUP BY city; -- CHART: radar"
          [] true "radar" /\
      "radar" ∉ recognizedKinds).
Proof.
  intros w. repeat split; try reflexivity.
  intros Hin. repeat (apply elem_of_cons in Hin as [?|Hin]; [discriminate|]).
  inversion Hin.
Qed.

End Query.

(** ** The transaction of the generation handler *)

Module Transaction.
Import Strings database gemini web StringFacts Introspection.

(** The Generated Statement Batch of a generator output: the fragments
    between the semicolons, trimmed, the empty ones dropped. *)
Definition batch (sqlResult : string) : list string :=
  filter (fun stmt => stmt <> "") (map TrimSpace (Split sqlResult ";")).

Section Batch.
Context `{Backend}.

(** The statements of a batch applied one after the other to a state:
    the state behind the last one, or the first error with its statement. *)
Fixpoint applyAll (stmts : list string) (s : Store) : string * string + Store :=
  match stmts with
  | [] => inr s
  | stmt :: stmts' =>
      match exec stmt s with
      | Err e => inl (e, stmt)
      | Ok s' => applyAll stmts' s'
      end
  end.

(** The calls of the loop on such a batch. *)
Fixpoint batchEvents (stmts : list string) (s : Store) : list Event :=
  match stmts with
  | [] => []
  | stmt :: stmts' =>
      Executed stmt ::
      match exec stmt s with
      | Err _ => [RolledBack]
      | Ok s' => batchEvents stmts' s'
      end
  end.

Lemma execStatements_run (statements : list string) (tx : Store) (w : World) :
  let stmts := filter (fun stmt => stmt <> "") (map TrimSpace statements) in
  execStatements tx statements w =
    (applyAll stmts tx, logged w (batchEvents stmts tx)).
Proof.
  revert tx w. induction statements as [|stmt statements IH]; intros tx w; simpl.
  - destruct w. unfold ret, logged; simpl. now rewrite List.app_nil_r.
  - destruct (String.eqb_spec (TrimSpace stmt) "") as [Heq|Hne].
    + rewrite filter_cons_False by (intros Hn; now apply Hn). apply IH.
    + rewrite filter_cons_True by assumption. simpl.
      unfold bind at 1, Tx_Exec, bind at 1, emit, ret at 1.
      destruct (exec (TrimSpace stmt) tx) as [tx'|e].
      * rewrite IH. simpl. unfold logged; simpl.
        now rewrite <- List.app_assoc.
      * unfold bind, Tx_Rollback, emit, ret, logged; simpl.
        now rewrite <- List.app_assoc.
Qed.

(** A failing batch ends with the rollback and has no commit; a batch
    that runs through has neither. *)
Lemma batchEvents_failed (stmts : list string) (s : Store) (e stmt : string) :
  applyAll stmts s = inl (e, stmt) ->
  exists before, batchEvents stmts s = before ++ [Executed stmt; RolledBack] /\
                 Committed ∉ batchEvents stmts s.
Proof.
  revert s. induction stmts as [|st stmts IH]; intros s; simpl; [discriminate|].
  destruct (exec st s) as [s'|e'].
  - intros Hfail. destruct (IH _ Hfail) as (before & Heq & Hno).
    exists (Executed st :: before). rewrite Heq. split; [reflexivity|].
    rewrite <- Heq. intros Hin. apply elem_of_cons in Hin as [?|?]; [discriminate | auto].
  - intros [= -> ->]. exists []. split; [reflexivity|].
    intros Hin. repeat (apply elem_of_cons in Hin as [?|Hin]; [discriminate|]).
    inversion Hin.
Qed.

(** [executeBatch], call by call. *)
Lemma executeBatch_run (sqlResult : string) (w : World) :
  let stmts := batch sqlResult in
  let events := Began :: batchEvents stmts (db w) in
  executeBatch sqlResult w =
    match beginFails (db w) with
    | Some _ => (inl (Error "Database error" 500), logged w [Began])
    | None =>
        match applyAll stmts (db w) with
        | inl (e, stmt) =>
            (inl (Error ("Error executing generated SQL: " +:+ e +:+ LF +:+
                         "SQL: " +:+ stmt) 500),
             logged w events)
        | inr s =>
            match commitFails s with
            | Some _ =>
                (inl (Error "Transaction commit error" 500),
                 logged w (events ++ [Committed]))
            | None =>
                (inr tt, {| db := s; trace := trace w ++ events ++ [Committed] |})
            end
        end
    end.
Proof.
  intros stmts events. unfold executeBatch.
  unfold bind at 1, DB_Begin, bind at 1, emit. cbn [db trace].
  destruct (beginFails (db w)) as [e0|]; [reflexivity|].
  unfold bind at 1. rewrite execStatements_run. fold (batch sqlResult). fold stmts.
  cbn [db trace logged].
  destruct (applyAll stmts (db w)) as [[e stmt]|s].
  - unfold ret, logged. cbn [db trace]. now rewrite <- List.app_assoc.
  - unfold bind at 1, Tx_Commit, bind at 1, emit. cbn [db trace].
    destruct (commitFails s); unfold ret, logged; cbn [db trace];
      now rewrite <- !List.app_assoc.
Qed.

(** C2. The transaction of [generateData] is all or nothing.  Whatever
    the generator output: behind [executeBatch] the store is either as
    before, or the batch is reported committed and the store is the state
    reached by applying every statement of the batch in order.  When a
    statement fails, the reply is the error carrying that statement, the
    loop ends with the rollback, no commit is issued and the store is as
    before.  When every statement succeeds and the commit goes through,
    the store is the state behind the last statement. *)
Theorem executeBatch_atomic (sqlResult : string) (w : World) :
  let stmts := batch sqlResult in
  let out := (executeBatch sqlResult w).1 in
  let w' := (executeBatch sqlResult w).2 in
  (db w' = db w \/ (out = inr tt /\ applyAll stmts (db w) = inr (db w')))
  /\ (forall e stmt,
        beginFails (db w) = None -> applyAll stmts (db w) = inl (e, stmt) ->
        out = inl (Error ("Error executing generated SQL: " +:+ e +:+ LF +:+
                          "SQL: " +:+ stmt) 500)
        /\ db w' = db w
        /\ (exists before,
              trace w' = trace w ++ Began :: before ++ [Executed stmt; RolledBack])
        /\ Committed ∉ drop (length (trace w)) (trace w'))
  /\ (forall s,
        beginFails (db w) = None -> applyAll stmts (db w) = inr s ->
        commitFails s = None ->
        out = inr tt /\ db w' = s).
Proof.
  intros stmts out w'. subst out w'. rewrite executeBatch_run. fold stmts.
  destruct (beginFails (db w)) as [e0|] eqn:Hbegin.
  - cbn [fst snd db trace logged]. split; [now left|]. split; discriminate.
  - destruct (applyAll stmts (db w)) as [[e stmt]|s] eqn:Happly.
    + cbn [fst snd db trace logged]. split; [now left|]. split; [|discriminate].
      intros e' stmt' _ [= <- <-].
      destruct (batchEvents_failed _ _ _ _ Happly) as (before & Heq & Hno).
      repeat split.
      * exists before. now rewrite Heq.
      * rewrite drop_app_length.
        intros Hin. apply elem_of_cons in Hin as [?|?]; [discriminate | auto].
    + destruct (commitFails s) as [e1|] eqn:Hcommit.
      * cbn [fst snd db trace logged]. split; [now left|]. split; [discriminate|].
        intros s' _ [= <-]. congruence.
      * cbn [fst snd db trace logged]. split; [now right|]. split; [discriminate|].
        intros s' _ [= <-] _. auto.
Qed.

End Batch.

(** *** The batch inside [generateData] *)

Section Handler.
Context `{Backend} `{Generator}.

(** With tables in the catalog and an answer of the generator,
    [generateData] is its transaction, followed by the preview when the
    batch is committed. *)
Lemma generateData_run (r : Request GenerateRequest) (req : GenerateRequest)
    (w : World) (c : Catalog) (resp : GenerateContentResponse) :
  Method r = "POST" -> Body r = Some req ->
  catalog (db w) = Ok c -> Query.schemaOf c <> "" ->
  GenerateContent dataSystemInstruction (Temperature req) (int32 (MaxTokens req))
    (dataPrompt (Query.schemaOf c)) = Ok resp ->
  nilContent resp = false ->
  generateData r w =
    (let w1 := logged w [Introspected schemaQuery;
                         Asked (dataPrompt (Query.schemaOf c))] in
     match executeBatch (getResponseText resp) w1 with
     | (inl reply, w2) => (reply, w2)
     | (inr _, w2) => preview w2
     end).
Proof.
  intros Hm Hb Hc Hschema Hg Hnil. unfold generateData.
  rewrite Hm, Hb, String.eqb_refl. cbn [negb].
  unfold bind at 1. rewrite (GetSchema_run _ _ Hc), Query.schemaLoop_schemaOf.
  apply String.eqb_neq in Hschema. rewrite Hschema.
  unfold bind at 1, GenerateDataSQL, bind at 1, emit. cbn [db trace logged].
  rewrite Hg, Hnil. unfold ret at 1, bind at 1.
  unfold logged. cbn [db trace]. rewrite <- List.app_assoc. cbn [app].
  destruct (executeBatch _ _) as [[reply|[]] w2]; reflexivity.
Qed.

(** On an answer without content the handler panics behind the question
    to the generator: no transaction is begun. *)
Lemma generateData_panics (r : Request GenerateRequest) (req : GenerateRequest)
    (w : World) (c : Catalog) (resp : GenerateContentResponse) :
  Method r = "POST" -> Body r = Some req ->
  catalog (db w) = Ok c -> Query.schemaOf c <> "" ->
  GenerateContent dataSystemInstruction (Temperature req) (int32 (MaxTokens req))
    (dataPrompt (Query.schemaOf c)) = Ok resp ->
  nilContent resp = true ->
  generateData r w =
    (Aborted, logged w [Introspected schemaQuery;
                        Asked (dataPrompt (Query.schemaOf c))]).
Proof.
  intros Hm Hb Hc Hschema Hg Hnil. unfold generateData.
  rewrite Hm, Hb, String.eqb_refl. cbn [negb].
  unfold bind at 1. rewrite (GetSchema_run _ _ Hc), Query.schemaLoop_schemaOf.
  apply String.eqb_neq in Hschema. rewrite Hschema.
  unfold bind at 1, GenerateDataSQL, bind at 1, emit. cbn [db trace logged].
  rewrite Hg, Hnil. unfold ret, logged. cbn [db trace].
  now rewrite <- List.app_assoc.
Qed.

(** A statement of the generated batch that fails leaves the store of
    the whole request as it was. *)
Lemma generateData_rolls_back (r : Request GenerateRequest) (req : GenerateRequest)
    (w : World) (c : Catalog) (resp : GenerateContentResponse) (e stmt : string) :
  Method r = "POST" -> Body r = Some req ->
  catalog (db w) = Ok c -> Query.schemaOf c <> "" ->
  GenerateContent dataSystemInstruction (Temperature req) (int32 (MaxTokens req))
    (dataPrompt (Query.schemaOf c)) = Ok resp ->
  nilContent resp = false ->
  beginFails (db w) = None ->
  applyAll (batch (getResponseText resp)) (db w) = inl (e, stmt) ->
  (generateData r w).1 =
    Error ("Error executing generated SQL: " +:+ e +:+ LF +:+ "SQL: " +:+ stmt) 500
  /\ db (generateData r w).2 = db w.
Proof.
  intros Hm Hb Hc Hschema Hg Hnil Hbegin Hfail.
  rewrite (generateData_run r req w c resp) by assumption. cbv zeta.
  rewrite executeBatch_run. cbn [db logged]. rewrite Hbegin, Hfail.
  split; reflexivity.
Qed.

End Handler.

(** The example of the specification, through the whole handler: the
    generator repeats an INSERT that the uniqueness constraint admits
    once. *)
Example generateData_duplicate :
  let g := Samples.says "INSERT INTO t VALUES (1); INSERT INTO t VALUES (1);" in
  let w := Samples.start [Samples.restaurants] Samples.noRows in
  let r := Samples.post (@Build_GenerateRequest g tt 100%Z) in
  (@generateData Samples.shop g r w).1 =
    Error ("Error executing generated SQL: " +:+
           "pq: duplicate key value violates unique constraint" +:+ LF +:+
           "SQL: INSERT INTO t VALUES (1)") 500
  /\ db (@generateData Samples.shop g r w).2 = db w
  /\ drop 2 (trace (@generateData Samples.shop g r w).2) =
       [Began; Executed "INSERT INTO t VALUES (1)";
        Executed "INSERT INTO t VALUES (1)"; RolledBack].
Proof. repeat split; reflexivity. Qed.

(** C2 on the sample store, whose uniqueness constraint rejects a
    statement applied twice: the batch of the two equal INSERT statements
    fails at the second, and the store is as before. *)
Lemma executeBatch_atomic_sample :
  let w := Samples.start [Samples.restaurants] Samples.noRows in
  let sqlResult := "INSERT INTO t VALUES (1); INSERT INTO t VALUES (1);" in
  batch sqlResult = ["INSERT INTO t VALUES (1)"; "INSERT INTO t VALUES (1)"] /\
  (@executeBatch Samples.shop sqlResult w).1 =
    inl (Error ("Error executing generated SQL: " +:+
                "pq: duplicate key value violates unique constraint" +:+ LF +:+
                "SQL: " +:+ "INSERT INTO t VALUES (1)") 500) /\
  db (@executeBatch Samples.shop sqlResult w).2 = db w.
Proof.
  intros w sqlResult. split; [reflexivity|].
  destruct (@executeBatch_atomic Samples.shop sqlResult w) as (_ & Hfail & _).
  destruct (Hfail "pq: duplicate key value violates unique constraint"
              "INSERT INTO t VALUES (1)" eq_refl eq_refl) as (Hout & Hdb & _).
  split; [exact Hout | exact Hdb].
Defined.

(** And a batch that runs through is committed as a whole. *)
Example executeBatch_commits :
  let w := Samples.start [Samples.restaurants] Samples.noRows in
  let sqlResult := "INSERT INTO t VALUES (1); ; INSERT INTO t VALUES (2)" in
  (@executeBatch Samples.shop sqlResult w).1 = inr tt /\
  Samples.applied (db (@executeBatch Samples.shop sqlResult w).2) =
    ["INSERT INTO t VALUES (1)"; "INSERT INTO t VALUES (2)"].
Proof. split; reflexivity. Qed.

End Transaction.

(** ** Errors of statements and of rows *)

Module Errors.
Import Strings database gemini web StringFacts Introspection Query Transaction.

(** The rows of a cursor whose scan succeeded, in order. *)
Fixpoint scanned (next : list Scan) : list (list Value) :=
  match next with
  | [] => []
  | Scanned vals :: next' => vals :: scanned next'
  | ScanFailed _ _ :: next' => scanned next'
  end.

(** The row loop of [query] keeps the rows that scanned. *)
Lemma materialize_scanned (cols : list string) (next : list Scan) :
  materialize cols next =
  (fun vals => fillMap ∅ cols (slots cols vals)) <$> scanned next.
Proof.
  induction next as [|[vals|e partial] next IH]; simpl;
    [reflexivity | now rewrite IH | exact IH].
Qed.

Section Surfaced.
Context `{Backend} `{Generator}.

(** C6, as the code has it.  An error is reported, with the text of its
    statement, when the call that hands the statement to the store
    returns it: [tx.Exec] for a statement of a batch, [DB.Query] for the
    statement of [query].  When [DB.Query] returns a cursor, the reply of
    [query] is a success that holds the rows the cursor delivered and
    that scanned, in order: what ended the cursor ([rows.Err()], which the
    row loop never reads) has no part in it, so an error that the
    statement meets while its rows are read is not reported. *)
Theorem errors_surfaced :
  (forall (sqlResult : string) (w : World) (e stmt : string),
     beginFails (db w) = None ->
     applyAll (batch sqlResult) (db w) = inl (e, stmt) ->
     (executeBatch sqlResult w).1 =
       inl (Error ("Error executing generated SQL: " +:+ e +:+ LF +:+
                   "SQL: " +:+ stmt) 500))
  /\ (forall (r : Request string) (prompt : string) (w : World) (c : Catalog)
        (resp : GenerateContentResponse) (execSQL chartType : string),
        Method r = "POST" -> Body r = Some prompt -> catalog (db w) = Ok c ->
        GenerateContent querySystemInstruction lowTemperature 1024
          (queryInput (schemaOf c) prompt) = Ok resp ->
        nilContent resp = false ->
        let generatedSQL := cleanSQL (getResponseText resp) in
        splitChart generatedSQL (Contains generatedSQL marker) = (execSQL, chartType) ->
        IsQuerySafe execSQL = true ->
        (query r w).1 =
          match run execSQL (db w) with
          | Err e =>
              Error ("Query execution error: " +:+ e +:+ LF +:+ "SQL: " +:+ execSQL) 500
          | Ok (_, rows) =>
              QueryJSON generatedSQL
                ((fun vals => fillMap ∅ (Columns rows) (slots (Columns rows) vals))
                   <$> scanned (Next rows))
                (Contains generatedSQL marker) chartType
          end).
Proof.
  split.
  - intros sqlResult w e stmt Hbegin Hfail.
    rewrite executeBatch_run, Hbegin, Hfail. reflexivity.
  - intros r prompt w c resp execSQL chartType Hm Hb Hc Hg Hnil generatedSQL Hs Hsafe.
    rewrite (query_safe r prompt w c resp Hm Hb Hc Hg _ _ Hnil Hs Hsafe).
    destruct (run execSQL (db w)) as [[s rows]|e]; [|reflexivity].
    cbn [fst]. now rewrite materialize_scanned.
Qed.

End Surfaced.

(** A cursor that delivers one row and then ends with an error: the
    statement [SELECT name, 100 / (id - 2) FROM restaurants] on a table
    whose second row has the [id] 2. *)
Definition shares : string := "SELECT name, 100 / (id - 2) FROM restaurants".

Definition broken : Rows :=
  {| Columns := ["name"; "?column?"];
     Next := [Scanned [Str "Central"; Int64 (-100)]];
     RowsErr := Some "pq: division by zero" |}.

(** C6 on the sample store: the failing statement of a batch and the
    rejected statement of a query come back with their text; the
    statement that fails behind its first row comes back as a success. *)
Lemma errors_surfaced_sample :
  (@executeBatch Samples.shop "INSERT INTO t VALUES (1); INSERT INTO t VALUES (1);"
     (Samples.start [Samples.restaurants] Samples.noRows)).1 =
    inl (Error ("Error executing generated SQL: " +:+
                "pq: duplicate key value violates unique constraint" +:+ LF +:+
                "SQL: " +:+ "INSERT INTO t VALUES (1)") 500)
  /\ (@query Samples.shop (Samples.says "EXPLAIN SELECT 1")
        (Samples.post "explain") (Samples.start [Samples.restaurants] Samples.noRows)).1 =
      Error ("Query execution error: " +:+ "pq: syntax error" +:+ LF +:+
             "SQL: " +:+ "EXPLAIN SELECT 1") 500
  /\ (@query Samples.shop (Samples.says shares)
        (Samples.post "what share has each restaurant")
        (Samples.start [Samples.restaurants] broken)).1 =
      QueryJSON shares
        ((fun vals => fillMap ∅ (Columns broken) (slots (Columns broken) vals))
           <$> [[Str "Central"; Int64 (-100)]])
        false "".
Proof.
  destruct (@errors_surfaced Samples.shop (Samples.says "EXPLAIN SELECT 1"))
    as (Hbatch & Hquery).
  destruct (@errors_surfaced Samples.shop (Samples.says shares)) as (_ & Hrows).
  split; [|split].
  - now apply Hbatch.
  - exact (Hquery (Samples.post "explain") "explain"
             (Samples.start [Samples.restaurants] Samples.noRows)
             [Samples.restaurants] [Some [Text "EXPLAIN SELECT 1"]] "EXPLAIN SELECT 1" ""
             eq_refl eq_refl eq_refl eq_refl eq_refl eq_refl eq_refl).
  - exact (Hrows (Samples.post "what share has each restaurant")
             "what share has each restaurant"
             (Samples.start [Samples.restaurants] broken)
             [Samples.restaurants] [Some [Text shares]] shares ""
             eq_refl eq_refl eq_refl eq_refl eq_refl eq_refl eq_refl).
Defined.

(** C6 as stated fails on the code: the statement of this query fails
    behind its first row, with the error [pq: division by zero] at the
    end of the cursor, and [query] replies with that row and no error.
    Handed to [tx.Exec], the same statement is an error. *)
Lemma query_cursor_error_swallowed :
  let w := Samples.start [Samples.restaurants] broken in
  @run Samples.shop shares (db w) = Ok (db w, broken)
  /\ RowsErr broken = Some "pq: division by zero"
  /\ (@query Samples.shop (Samples.says shares)
        (Samples.post "what share has each restaurant") w).1 =
      QueryJSON "SELECT name, 100 / (id - 2) FROM restaurants"
        [ <["name" := Str "Central"]> (<["?column?" := Int64 (-100)]> ∅) ] false ""
  /\ @exec Samples.shop shares (db w) = Err "pq: division by zero".
Proof. intros w. repeat split. Qed.

End Errors.

(** ** The CSV exports *)

Module Exports.
Import Strings database web Introspection Errors.

(** The statement that reads a table, and the file name of its export. *)
Definition selectAll (tableName : string) : string := "SELECT * FROM " +:+ tableName.
Definition csvName (tableName : string) : string := tableName +:+ ".csv".

(** What a scan step left in the destinations. *)
Definition stored (step : Scan) : list Value :=
  match step with
  | Scanned vals => vals
  | ScanFailed _ partial => partial
  end.

(** A field of a record against the value of its column ([None]: the scan
    stored nothing there, the destination is still nil): the empty field
    for NULL, the empty field for the empty text, the [%v] text for any
    other value. *)
Definition fieldOf (val : option Value) (field : option string) : Prop :=
  (default Nil val = Nil -> field = Some "")
  /\ (val = Some (Str "") -> field = Some "")
  /\ (forall v, val = Some v -> v <> Nil -> field = Some (Sprintv v)).

(** SQL NULL replaced by the empty text. *)
Definition nullAsEmpty (val : Value) : Value :=
  match val with
  | Nil => Str ""
  | _ => val
  end.

Definition scanNullAsEmpty (s : Scan) : Scan :=
  match s with
  | Scanned vals => Scanned (map nullAsEmpty vals)
  | ScanFailed e partial => ScanFailed e (map nullAsEmpty partial)
  end.

Definition get (table : string) : Request unit :=
  {| Method := "GET"; Body := None; Table := table |}.

Lemma slots_lookup (cols : list string) (stored : list Value) (i : nat) :
  (i < length cols)%nat ->
  slots cols stored !! i = Some (default Nil (stored !! i)).
Proof.
  intros Hi. unfold slots.
  change (map ?f ?l) with (f <$> l).
  now rewrite list_lookup_fmap, lookup_seq_lt.
Qed.

Lemma slots_length (cols : list string) (stored : list Value) :
  length (slots cols stored) = length cols.
Proof. unfold slots. now rewrite length_map, length_seq. Qed.

Lemma csvRecord_nullAsEmpty (cols : list string) (vals : list Value) :
  csvRecord (slots cols (map nullAsEmpty vals)) = csvRecord (slots cols vals).
Proof.
  unfold csvRecord, slots. rewrite !map_map. apply map_ext. intros i.
  rewrite list_lookup_fmap. destruct (vals !! i) as [[]|]; reflexivity.
Qed.

Lemma csvRecord_field (cols : list string) (vals : list Value) (i : nat) :
  (i < length cols)%nat -> fieldOf (vals !! i) (csvRecord (slots cols vals) !! i).
Proof.
  intros Hi. unfold csvRecord. change (map ?f ?l) with (f <$> l).
  rewrite list_lookup_fmap, slots_lookup by exact Hi. cbn [fmap option_fmap option_map].
  split; [|split].
  - now intros ->.
  - now intros ->.
  - intros v -> Hv. now destruct v.
Qed.

(** The two row loops, row by row. *)
Lemma csvRows_scanned (cols : list string) (next : list Scan) :
  csvRows cols next = (fun vals => csvRecord (slots cols vals)) <$> scanned next.
Proof.
  induction next as [|[vals|e partial] next IH]; simpl;
    [reflexivity | now rewrite IH | exact IH].
Qed.

Lemma zipRows_stored (cols : list string) (next : list Scan) :
  zipRows cols next = (fun step => csvRecord (slots cols (stored step))) <$> next.
Proof.
  induction next as [|[vals|e partial] next IH]; simpl;
    [reflexivity | now rewrite IH..].
Qed.

Lemma csvRows_nullAsEmpty (cols : list string) (next : list Scan) :
  csvRows cols (map scanNullAsEmpty next) = csvRows cols next.
Proof.
  induction next as [|[vals|e partial] next IH]; simpl;
    [reflexivity | rewrite IH, csvRecord_nullAsEmpty; reflexivity | exact IH].
Qed.

Section Handlers.
Context `{Backend}.

(** The tables of a list that the store lets read with the statement
    [stmt], each with the cursor it gives, in order; a table whose
    statement the store rejects is left out. *)
Fixpoint reads (stmt : string -> string) (tables : list string) (s : Store)
    : list (string * Rows) :=
  match tables with
  | [] => []
  | t :: tables' =>
      match run (stmt t) s with
      | Ok (s', rows) => (t, rows) :: reads stmt tables' s'
      | Err _ => reads stmt tables' s
      end
  end.

(** The table [downloadCSV] exports for a request: the one of the
    parameter [table], or without a parameter the first of [GetTables]. *)
Definition exports (r : Request unit) (w : World) (t : string) : Prop :=
  (Table r = t /\ t <> "")
  \/ (Table r = "" /\
      exists c, catalog (db w) = Ok c /\ head (selectTables c) = Some t).

(** [downloadCSV] with a parameter [table], call by call. *)
Lemma downloadCSV_table (r : Request unit) (w : World) :
  Table r <> "" ->
  downloadCSV r w =
    match run (selectAll (Table r)) (db w) with
    | Ok (s, rows) =>
        (CSVFile (csvName (Table r))
           (Columns rows :: csvRows (Columns rows) (Next rows)),
         {| db := s; trace := trace w ++ [Queried (selectAll (Table r))] |})
    | Err _ =>
        (Error "Error querying table" 500, logged w [Queried (selectAll (Table r))])
    end.
Proof.
  intros Htable. unfold downloadCSV. apply String.eqb_neq in Htable. rewrite Htable.
  unfold bind at 1. unfold ret at 1. unfold bind, DB_Query, bind, emit.
  cbn [db trace logged]. fold (selectAll (Table r)). fold (csvName (Table r)).
  destruct (run (selectAll (Table r)) (db w)) as [[s rows]|e]; reflexivity.
Qed.

(** [downloadCSV] without a parameter [table], call by call. *)
Lemma downloadCSV_run (r : Request unit) (w : World) (c : Catalog) :
  Table r = "" -> catalog (db w) = Ok c ->
  downloadCSV r w =
    match selectTables c with
    | [] => (Error "No table specified" 400, logged w [Introspected tablesQuery])
    | table0 :: _ =>
        match run (selectAll table0) (db w) with
        | Ok (s, rows) =>
            (CSVFile (csvName table0)
               (Columns rows :: csvRows (Columns rows) (Next rows)),
             {| db := s;
                trace := trace w ++ [Introspected tablesQuery;
                                      Queried (selectAll table0)] |})
        | Err _ =>
            (Error "Error querying table" 500,
             logged w [Introspected tablesQuery; Queried (selectAll table0)])
        end
    end.
Proof.
  intros Htable Hc. unfold downloadCSV. rewrite Htable, String.eqb_refl.
  unfold bind at 1 2. rewrite (GetTables_run _ _ Hc), tablesLoop_Ok. cbn [app].
  destruct (selectTables c) as [|table0 tables]; [reflexivity|].
  unfold ret at 1. unfold bind, DB_Query, bind, emit. cbn [db trace logged].
  fold (selectAll table0). fold (csvName table0).
  destruct (run (selectAll table0) (db w)) as [[s rows]|e];
    unfold ret, logged; cbn [db trace]; now rewrite <- List.app_assoc.
Qed.

(** The file of the table a request exports. *)
Lemma downloadCSV_exports (r : Request unit) (w : World) (t : string)
    (s : Store) (rows : Rows) :
  exports r w t -> run (selectAll t) (db w) = Ok (s, rows) ->
  (downloadCSV r w).1 =
    CSVFile (csvName t) (Columns rows :: csvRows (Columns rows) (Next rows)).
Proof.
  intros [[<- Hne]|(Hnone & c & Hc & Hhead)] Hrun.
  - now rewrite (downloadCSV_table r w Hne), Hrun.
  - rewrite (downloadCSV_run r w c Hnone Hc).
    destruct (selectTables c) as [|table0 tables]; [discriminate|].
    injection Hhead as ->. now rewrite Hrun.
Qed.

(** The archive entry of a table that was read. *)
Definition zipEntry (read : string * Rows) : string * list (list string) :=
  (csvName read.1, Columns read.2 :: zipRows (Columns read.2) (Next read.2)).

(** [zipTables], call by call. *)
Lemma zipTables_reads (tables : list string) (w : World) :
  exists w',
    zipTables tables w = (zipEntry <$> reads selectAll tables (db w), w') /\
    trace w' = trace w ++ map (fun t => Queried (selectAll t)) tables.
Proof.
  revert w. induction tables as [|t tables IH]; intros w.
  - exists w. cbn. now rewrite List.app_nil_r.
  - cbn [zipTables reads]. unfold bind at 1, DB_Query, bind at 1, emit.
    cbn [db trace]. fold (selectAll t).
    destruct (run (selectAll t) (db w)) as [[s rows]|e].
    + unfold bind at 1.
      match goal with |- context [zipTables tables ?w1] =>
        destruct (IH w1) as (w' & -> & Htrace)
      end.
      exists w'. split; [reflexivity|]. cbn [db trace] in Htrace.
      rewrite Htrace, <- List.app_assoc. reflexivity.
    + match goal with |- context [zipTables tables ?w1] =>
        destruct (IH w1) as (w' & -> & Htrace)
      end.
      exists w'. split; [reflexivity|]. cbn [db trace] in Htrace.
      rewrite Htrace, <- List.app_assoc. reflexivity.
Qed.

(** [downloadZip] on a readable catalog, call by call. *)
Lemma downloadZip_run (r : Request unit) (w : World) (c : Catalog) :
  catalog (db w) = Ok c ->
  (downloadZip r w).1 =
    ZipFile (zipEntry <$> reads selectAll (selectTables c) (db w))
  /\ trace (downloadZip r w).2 =
       trace w ++ Introspected tablesQuery ::
                  map (fun t => Queried (selectAll t)) (selectTables c).
Proof.
  intros Hc. unfold downloadZip, bind at 1 3.
  rewrite (GetTables_run _ _ Hc), tablesLoop_Ok. cbn [app]. unfold bind.
  destruct (zipTables_reads (selectTables c) (logged w [Introspected tablesQuery]))
    as (w' & Hrun & Htrace).
  cbn [db logged] in Hrun. rewrite Hrun. cbn [fst snd ret]. split; [reflexivity|].
  rewrite Htrace. cbn [logged trace]. now rewrite <- List.app_assoc.
Qed.

(** C10. In the file of [downloadCSV] and in every entry of the archive
    of [downloadZip], behind the header stands one record for each row
    (in [downloadCSV]: each row that scanned), and in it the field of a
    NULL is empty, as is the field of an empty text; any other value
    stands as its [%v] text.  So a table and the same table with every
    NULL replaced by the empty text give the same file. *)
Theorem csv_null_is_empty :
  (forall (r : Request unit) (w : World) (t : string) (s : Store) (rows : Rows),
     exports r w t -> run (selectAll t) (db w) = Ok (s, rows) ->
     exists records,
       (downloadCSV r w).1 = CSVFile (csvName t) (Columns rows :: records) /\
       length records = length (scanned (Next rows)) /\
       forall j vals record i,
         scanned (Next rows) !! j = Some vals -> records !! j = Some record ->
         (i < length (Columns rows))%nat ->
         fieldOf (vals !! i) (record !! i))
  /\ (forall (r : Request unit) (w : World) (c : Catalog),
        catalog (db w) = Ok c ->
        exists entries,
          (downloadZip r w).1 = ZipFile entries /\
          Forall2
            (fun read entry =>
               entry.1 = csvName read.1 /\
               exists records,
                 entry.2 = Columns read.2 :: records /\
                 length records = length (Next read.2) /\
                 forall j step record i,
                   Next read.2 !! j = Some step -> records !! j = Some record ->
                   (i < length (Columns read.2))%nat ->
                   fieldOf (stored step !! i) (record !! i))
            (reads selectAll (selectTables c) (db w)) entries)
  /\ (forall (r : Request unit) (w w' : World) (t : string) (s s' : Store)
         (rows : Rows),
        exports r w t -> exports r w' t ->
        run (selectAll t) (db w) = Ok (s, rows) ->
        run (selectAll t) (db w') =
          Ok (s', {| Columns := Columns rows;
                     Next := map scanNullAsEmpty (Next rows);
                     RowsErr := RowsErr rows |}) ->
        (downloadCSV r w').1 = (downloadCSV r w).1).
Proof.
  split; [|split].
  - intros r w t s rows Ht Hrun. exists (csvRows (Columns rows) (Next rows)).
    split; [exact (downloadCSV_exports r w t s rows Ht Hrun)|].
    rewrite csvRows_scanned. split; [now rewrite length_fmap|].
    intros j vals record i Hvals Hrecord Hi.
    rewrite list_lookup_fmap, Hvals in Hrecord. injection Hrecord as <-.
    now apply csvRecord_field.
  - intros r w c Hc. destruct (downloadZip_run r w c Hc) as [Hreply _].
    eexists. split; [exact Hreply|].
    apply Forall2_fmap_r, Forall_Forall2_diag, Forall_forall.
    intros [t rows] _. cbn [zipEntry fst snd]. split; [reflexivity|].
    eexists. split; [reflexivity|]. rewrite zipRows_stored.
    split; [now rewrite length_fmap|].
    intros j step record i Hstep Hrecord Hi. cbn [snd] in Hrecord.
    rewrite list_lookup_fmap, Hstep in Hrecord. injection Hrecord as <-.
    now apply csvRecord_field.
  - intros r w w' t s s' rows Ht Ht' Hrun Hrun'.
    rewrite (downloadCSV_exports r w t s rows Ht Hrun).
    rewrite (downloadCSV_exports r w' t s' _ Ht' Hrun'). cbn [Columns Next].
    now rewrite csvRows_nullAsEmpty.
Qed.

End Handlers.

Definition withNull : Rows :=
  {| Columns := ["id"; "address"];
     Next := [Scanned [Int64 1; Nil]; Scanned [Int64 2; Str "Av. La Mar 770"]];
     RowsErr := None |}.

Definition withEmpty : Rows :=
  {| Columns := ["id"; "address"];
     Next := [Scanned [Int64 1; Str ""]; Scanned [Int64 2; Str "Av. La Mar 770"]];
     RowsErr := None |}.

(** C10 on the sample store: the export of a table with a NULL address,
    by parameter and in the archive, and the export of the same table
    with an empty address. *)
Lemma csv_null_is_empty_sample :
  (exists records,
     (@downloadCSV Samples.shop (get "restaurants")
        (Samples.start [Samples.restaurants] withNull)).1 =
       CSVFile (csvName "restaurants") (Columns withNull :: records) /\
     length records = length (scanned (Next withNull)) /\
     forall j vals record i,
       scanned (Next withNull) !! j = Some vals -> records !! j = Some record ->
       (i < length (Columns withNull))%nat ->
       fieldOf (vals !! i) (record !! i))
  /\ (exists entries,
        (@downloadZip Samples.shop (get "")
           (Samples.start [Samples.restaurants] withNull)).1 = ZipFile entries /\
        Forall2
          (fun read entry =>
             entry.1 = csvName read.1 /\
             exists records,
               entry.2 = Columns read.2 :: records /\
               length records = length (Next read.2) /\
               forall j step record i,
                 Next read.2 !! j = Some step -> records !! j = Some record ->
                 (i < length (Columns read.2))%nat ->
                 fieldOf (stored step !! i) (record !! i))
          [("restaurants", withNull)] entries)
  /\ (@downloadCSV Samples.shop (get "restaurants")
        (Samples.start [Samples.restaurants] withEmpty)).1 =
      (@downloadCSV Samples.shop (get "restaurants")
         (Samples.start [Samples.restaurants] withNull)).1.
Proof.
  destruct (@csv_null_is_empty Samples.shop) as (Hcsv & Hzip & Hsame).
  assert (forall a, @exports Samples.shop (get "restaurants")
                      (Samples.start [Samples.restaurants] a) "restaurants") as Ht
    by (intros a; left; split; [reflexivity | discriminate]).
  split; [|split].
  - exact (Hcsv (get "restaurants") (Samples.start [Samples.restaurants] withNull)
             "restaurants" _ withNull (Ht withNull) eq_refl).
  - exact (Hzip (get "") (Samples.start [Samples.restaurants] withNull)
             [Samples.restaurants] eq_refl).
  - exact (Hsame (get "restaurants") (Samples.start [Samples.restaurants] withNull)
             (Samples.start [Samples.restaurants] withEmpty) "restaurants" _ _ withNull
             (Ht withNull) (Ht withEmpty) eq_refl eq_refl).
Defined.

(** The two exports of a table with a NULL address and of the same table
    with an empty address are the same. *)
Example downloadCSV_null_vs_empty :
  (@downloadCSV Samples.shop (get "restaurants")
     (Samples.start [Samples.restaurants] withNull)).1 =
    CSVFile "restaurants.csv" [["id"; "address"]; ["1"; ""]; ["2"; "Av. La Mar 770"]]
  /\ (@downloadCSV Samples.shop (get "restaurants")
        (Samples.start [Samples.restaurants] withEmpty)).1 =
      CSVFile "restaurants.csv" [["id"; "address"]; ["1"; ""]; ["2"; "Av. La Mar 770"]].
Proof. split; reflexivity. Qed.

Example downloadZip_null_vs_empty :
  (@downloadZip Samples.shop (get "")
     (Samples.start [Samples.restaurants] withNull)).1 =
    ZipFile [("restaurants.csv", [["id"; "address"]; ["1"; ""]; ["2"; "Av. La Mar 770"]])]
  /\ (@downloadZip Samples.shop (get "")
        (Samples.start [Samples.restaurants] withEmpty)).1 =
      (@downloadZip Samples.shop (get "")
         (Samples.start [Samples.restaurants] withNull)).1.
Proof. split; reflexivity. Qed.

End Exports.

(** ** The schema description and the list of tables *)

Module Schema.
Import Strings database StringFacts Introspection.

(** The relations of the namespace [public]. *)
Definition public (c : Catalog) : list Table :=
  filter (fun t => table_schema t = "public") c.

Definition byTableName (t1 t2 : Table) : Prop :=
  String.le (table_name t1) (table_name t2).

#[global] Instance byTableName_dec : RelDecision byTableName :=
  fun t1 t2 => decide (String.le (table_name t1) (table_name t2)).

(** The text of one relation: a header, a line per column in the order of
    declaration, and the closing line.  A relation without columns has no
    row in [information_schema.columns] and no text. *)
Fixpoint columnLines (cols : list Column) : string :=
  match cols with
  | [] => ""
  | col :: cols' =>
      ("  " +:+ column_name col +:+ " " +:+ data_type col +:+ "," +:+ LF)
      +:+ columnLines cols'
  end.

Definition tableBlock (t : Table) : string :=
  match columns t with
  | [] => ""
  | _ => ("TABLE " +:+ table_name t +:+ " (" +:+ LF)
         +:+ columnLines (columns t) +:+ ")" +:+ LF
  end.

Fixpoint blocks (ts : list Table) : string :=
  match ts with
  | [] => ""
  | t :: ts' => tableBlock t +:+ blocks ts'
  end.

(** The schema description: the public relations by name. *)
Definition describe (c : Catalog) : string :=
  blocks (merge_sort byTableName (public c)).

(** What the catalog guarantees: within a namespace names are unique, and
    no name is empty. *)
Definition wellNamed (c : Catalog) : Prop :=
  NoDup (map table_name (public c)) /\
  forall t, t ∈ public c -> table_name t <> "".

(** *** The orders *)

#[global] Instance byTableName_trans : Transitive byTableName.
Proof. intros x y z. unfold byTableName. apply transitivity. Qed.

#[global] Instance byTableName_total : Total byTableName.
Proof. intros x y. unfold byTableName. apply total, _. Qed.

#[global] Instance byName_trans : Transitive byName.
Proof. intros x y z. unfold byName. apply transitivity. Qed.

#[global] Instance byName_total : Total byName.
Proof. intros x y. unfold byName. apply total, _. Qed.

Lemma leb_le (a b : string) : String.leb a b = true <-> String.le a b.
Proof. unfold String.le. symmetry. apply Is_true_true. Qed.

Lemma byNamePosition_same (r1 r2 : ColumnsRow) :
  c_table_name r1 = c_table_name r2 ->
  byNamePosition r1 r2 <-> (c_ordinal_position r1 <= c_ordinal_position r2)%nat.
Proof.
  intros Heq. unfold byNamePosition, columnsOrder.
  rewrite Heq, String.eqb_refl. apply Nat.leb_le.
Qed.

Lemma byNamePosition_other (r1 r2 : ColumnsRow) :
  c_table_name r1 <> c_table_name r2 ->
  byNamePosition r1 r2 <-> String.le (c_table_name r1) (c_table_name r2).
Proof.
  intros Hne. unfold byNamePosition, columnsOrder.
  apply String.eqb_neq in Hne. rewrite Hne. apply leb_le.
Qed.

#[global] Instance byNamePosition_trans : Transitive byNamePosition.
Proof.
  intros x y z Hxy Hyz.
  destruct (decide (c_table_name x = c_table_name y)) as [Exy|Nxy];
    destruct (decide (c_table_name y = c_table_name z)) as [Eyz|Nyz].
  - apply byNamePosition_same in Hxy, Hyz; try assumption.
    apply byNamePosition_same; [congruence | lia].
  - apply byNamePosition_other in Hyz; [|assumption].
    apply byNamePosition_other; congruence.
  - apply byNamePosition_other in Hxy; [|assumption].
    apply byNamePosition_other; congruence.
  - apply byNamePosition_other in Hxy, Hyz; try assumption.
    apply byNamePosition_other.
    + intros Exz. apply Nxy. apply (anti_symm String.le); [assumption|].
      now rewrite Exz.
    + now transitivity (c_table_name y).
Qed.

#[global] Instance byNamePosition_total : Total byNamePosition.
Proof.
  intros x y.
  destruct (decide (c_table_name x = c_table_name y)) as [Exy|Nxy].
  - destruct (Nat.le_ge_cases (c_ordinal_position x) (c_ordinal_position y));
      [left | right]; apply byNamePosition_same; auto.
  - destruct (total String.le (c_table_name x) (c_table_name y));
      [left | right]; apply byNamePosition_other; auto.
Qed.

(** Two rows that come before each other have the same name and position. *)
Lemma byNamePosition_both (r1 r2 : ColumnsRow) :
  byNamePosition r1 r2 -> byNamePosition r2 r1 ->
  c_table_name r1 = c_table_name r2 /\
  c_ordinal_position r1 = c_ordinal_position r2.
Proof.
  intros H12 H21.
  destruct (decide (c_table_name r1 = c_table_name r2)) as [E|N].
  - apply byNamePosition_same in H12, H21; auto. split; [assumption | lia].
  - apply byNamePosition_other in H12, H21; auto.
    destruct N. now apply (anti_symm String.le).
Qed.

(** *** The rows of the schema query *)

Lemma elem_of_flat_map {A B} (f : A -> list B) (l : list A) (y : B) :
  y ∈ flat_map f l <-> exists x, x ∈ l /\ y ∈ f x.
Proof.
  rewrite list_elem_of_In, in_flat_map. split; intros (x & Hx & Hy); exists x;
    now rewrite ?list_elem_of_In in *.
Qed.

Lemma columns_public (c : Catalog) :
  filter (fun r => c_table_schema r = "public") (information_schema_columns c) =
  flat_map columnsOf (public c).
Proof.
  unfold information_schema_columns, public.
  induction c as [|t c IH]; [reflexivity|]. simpl. rewrite filter_app, IH.
  destruct (decide (table_schema t = "public")) as [Ht|Ht].
  - rewrite (filter_cons_True (fun t : Table => table_schema t = "public")) by exact Ht.
    simpl. f_equal.
    apply filter_all. intros r Hr.
    apply columnsFrom_table in Hr as (-> & _). exact Ht.
  - rewrite (filter_cons_False (fun t : Table => table_schema t = "public")) by exact Ht.
    rewrite filter_none; [reflexivity|]. intros r Hr.
    apply columnsFrom_table in Hr as (-> & _). exact Ht.
Qed.

Lemma columnsFrom_sorted (t : Table) (i : nat) (cols : list Column) :
  StronglySorted byNamePosition (columnsFrom t i cols).
Proof.
  revert i. induction cols as [|col cols IH]; intros i; simpl; constructor.
  - apply IH.
  - apply Forall_forall. intros r Hr.
    apply columnsFrom_table in Hr as (_ & Hname & Hord).
    apply byNamePosition_same; simpl; [congruence | lia].
Qed.

Lemma columnsFrom_position (t : Table) (i : nat) (cols : list Column)
    (r1 r2 : ColumnsRow) :
  r1 ∈ columnsFrom t i cols -> r2 ∈ columnsFrom t i cols ->
  c_ordinal_position r1 = c_ordinal_position r2 -> r1 = r2.
Proof.
  revert i. induction cols as [|col cols IH]; intros i H1 H2 Heq; simpl in *.
  - inversion H1.
  - apply elem_of_cons in H1 as [->|H1]; apply elem_of_cons in H2 as [->|H2].
    + reflexivity.
    + apply columnsFrom_table in H2 as (_ & _ & Hord). simpl in Heq. lia.
    + apply columnsFrom_table in H1 as (_ & _ & Hord). simpl in Heq. lia.
    + now apply (IH (S i)).
Qed.

Lemma NoDup_names (ts : list Table) (t1 t2 : Table) :
  NoDup (map table_name ts) -> t1 ∈ ts -> t2 ∈ ts ->
  table_name t1 = table_name t2 -> t1 = t2.
Proof.
  induction ts as [|t ts IH]; intros Hnd H1 H2 Heq; [inversion H1|].
  simpl in Hnd. apply NoDup_cons in Hnd as [Hnotin Hnd].
  assert (forall t', t' ∈ ts -> table_name t' <> table_name t) as Hfresh.
  { intros t' Ht' Hn. apply Hnotin. rewrite <- Hn.
    apply list_elem_of_In, in_map, list_elem_of_In, Ht'. }
  apply elem_of_cons in H1 as [->|H1]; apply elem_of_cons in H2 as [->|H2].
  - reflexivity.
  - symmetry in Heq. now destruct (Hfresh _ H2).
  - now destruct (Hfresh _ H1).
  - now apply IH.
Qed.

(** The rows of relations sorted by name, each with its columns in the
    order of declaration, are sorted by name and position. *)
Lemma tables_sorted (ts : list Table) :
  StronglySorted byTableName ts -> NoDup (map table_name ts) ->
  StronglySorted byNamePosition (flat_map columnsOf ts).
Proof.
  induction ts as [|t ts IH]; intros Hs Hnd; simpl; [constructor|].
  apply StronglySorted_cons in Hs as [Hall Hs].
  simpl in Hnd. apply NoDup_cons in Hnd as [Hnotin Hnd].
  apply StronglySorted_app_2.
  - intros r1 r2 H1 H2. apply columnsFrom_table in H1 as (_ & Hn1 & _).
    apply elem_of_flat_map in H2 as (t' & Ht' & H2).
    apply columnsFrom_table in H2 as (_ & Hn2 & _).
    apply byNamePosition_other; rewrite Hn1, Hn2.
    + intros Heq. apply Hnotin. rewrite Heq.
      apply list_elem_of_In, in_map, list_elem_of_In, Ht'.
    + rewrite Forall_forall in Hall. now apply Hall.
  - apply columnsFrom_sorted.
  - now apply IH.
Qed.

(** The [ORDER BY] of the schema query leaves one answer: the relations
    by name, each with its columns in the order of declaration. *)
Lemma ordered_rows (c : Catalog) (rows : list ColumnsRow) :
  NoDup (map table_name (public c)) ->
  rows ≡ₚ filter (fun r => c_table_schema r = "public") (information_schema_columns c) ->
  StronglySorted byNamePosition rows ->
  rows = flat_map columnsOf (merge_sort byTableName (public c)).
Proof.
  intros Hnd Hperm Hsorted. set (ts := merge_sort byTableName (public c)).
  assert (ts ≡ₚ public c) as Hts by apply merge_sort_Permutation.
  assert (NoDup (map table_name ts)) as Hnd'.
  { assert (map table_name ts ≡ₚ map table_name (public c)) as ->
      by (now apply Permutation_map).
    exact Hnd. }
  assert (rows ≡ₚ flat_map columnsOf ts) as Hperm'.
  { rewrite Hperm, columns_public. symmetry. now apply Permutation_flat_map. }
  apply (StronglySorted_unique_strong byNamePosition); try assumption.
  - intros r1 r2 H1 H2 H12 H21. rewrite Hperm' in H1.
    destruct (byNamePosition_both _ _ H12 H21) as [Hname Hord].
    apply elem_of_flat_map in H1 as (t1 & Ht1 & H1).
    apply elem_of_flat_map in H2 as (t2 & Ht2 & H2).
    assert (t1 = t2) as ->.
    { apply (NoDup_names ts); try assumption.
      apply columnsFrom_table in H1 as (_ & <- & _).
      apply columnsFrom_table in H2 as (_ & <- & _). exact Hname. }
    now apply (columnsFrom_position t2 1 (columns t2)).
  - apply tables_sorted; [|assumption].
    apply StronglySorted_merge_sort; apply _.
Qed.

(** *** The loop of [GetSchema] on such rows *)

Definition project (r : ColumnsRow) : string * string * string :=
  (c_table_name r, c_column_name r, c_data_type r).

Definition closing (cur : string) : string :=
  if String.eqb cur "" then "" else ")" +:+ LF.

Definition header (t : string) : string := "TABLE " +:+ t +:+ " (" +:+ LF.

Definition line (cn dt : string) : string :=
  "  " +:+ cn +:+ " " +:+ dt +:+ "," +:+ LF.

Lemma schemaLoop_row (t cn dt : string)
    (rows : list (result (string * string * string))) (b cur : string) :
  schemaLoop (Ok (t, cn, dt) :: rows) b cur =
  if String.eqb t cur
  then schemaLoop rows (b +:+ line cn dt) cur
  else schemaLoop rows (b +:+ closing cur +:+ header t +:+ line cn dt) t.
Proof.
  cbn [schemaLoop]. unfold closing, header, line.
  destruct (String.eqb t cur); cbn [negb]; [reflexivity|].
  destruct (String.eqb cur ""); cbn [negb]; f_equal;
    rewrite ?app_assoc; reflexivity.
Qed.

(** The further rows of the relation being written add their lines. *)
Lemma loop_table (t : Table) (cols : list Column) (i : nat)
    (rows : list (result (string * string * string))) (b : string) :
  schemaLoop (map Ok (map project (columnsFrom t i cols)) ++ rows) b (table_name t) =
  schemaLoop rows (b +:+ columnLines cols) (table_name t).
Proof.
  revert i b. induction cols as [|col cols IH]; intros i b.
  - simpl. now rewrite app_nil_r.
  - cbn [columnsFrom map app]. unfold project at 1.
    cbn [c_table_name c_column_name c_data_type].
    rewrite schemaLoop_row, String.eqb_refl, IH. cbn [columnLines].
    fold (line (column_name col) (data_type col)). now rewrite app_assoc.
Qed.

Lemma loop_tables (ts : list Table) (b cur : string) :
  (forall t, t ∈ ts -> table_name t <> cur) ->
  (forall t, t ∈ ts -> table_name t <> "") ->
  NoDup (map table_name ts) ->
  schemaLoop (map Ok (map project (flat_map columnsOf ts))) b cur =
  Ok (b +:+ closing cur +:+ blocks ts).
Proof.
  revert b cur. induction ts as [|t ts IH]; intros b cur Hcur Hne Hnd.
  - simpl. unfold closing. destruct (String.eqb cur ""); simpl;
      now rewrite ?app_nil_r.
  - simpl in Hnd. apply NoDup_cons in Hnd as [Hnotin Hnd].
    assert (forall t', t' ∈ ts -> table_name t' <> table_name t) as Hfresh.
    { intros t' Ht' Hn. apply Hnotin. rewrite <- Hn.
      apply list_elem_of_In, in_map, list_elem_of_In, Ht'. }
    assert (forall t', t' ∈ ts -> table_name t' <> "") as Hne'
      by (intros; apply Hne; now right).
    cbn [flat_map blocks]. unfold columnsOf at 1, tableBlock.
    destruct (columns t) as [|col cols].
    + cbn [columnsFrom app]. rewrite IH; auto.
      intros; apply Hcur; now right.
    + cbn [columnsFrom]. rewrite !map_app.
      cbn [map app]. unfold project at 1.
      cbn [c_table_name c_column_name c_data_type].
      rewrite schemaLoop_row.
      assert (String.eqb (table_name t) cur = false) as ->
        by (apply String.eqb_neq, Hcur; now left).
      rewrite loop_table, IH by auto. f_equal.
      unfold closing at 2.
      assert (String.eqb (table_name t) "" = false) as ->
        by (apply String.eqb_neq, Hne; now left).
      cbn [columnLines]. fold (header (table_name t)).
      fold (line (column_name col) (data_type col)).
      rewrite !app_assoc. reflexivity.
Qed.

Lemma selectSchema_ordered (c : Catalog) :
  NoDup (map table_name (public c)) ->
  selectSchema c = map project (flat_map columnsOf (merge_sort byTableName (public c))).
Proof.
  intros Hnd. unfold selectSchema. fold project. f_equal.
  apply ordered_rows; [assumption | apply merge_sort_Permutation |].
  apply StronglySorted_merge_sort; apply _.
Qed.

Lemma public_sorted_names (c : Catalog) :
  wellNamed c ->
  NoDup (map table_name (merge_sort byTableName (public c))) /\
  forall t, t ∈ merge_sort byTableName (public c) -> table_name t <> "".
Proof.
  intros [Hnd Hne].
  assert (merge_sort byTableName (public c) ≡ₚ public c) as Hperm
    by apply merge_sort_Permutation.
  split.
  - assert (map table_name (merge_sort byTableName (public c)) ≡ₚ
            map table_name (public c)) as -> by (now apply Permutation_map).
    exact Hnd.
  - intros t Ht. apply Hne. now rewrite <- Hperm.
Qed.

Lemma schemaLoop_describe (c : Catalog) :
  wellNamed c -> schemaLoop (map Ok (selectSchema c)) "" "" = Ok (describe c).
Proof.
  intros Hwell. destruct (public_sorted_names c Hwell) as [Hnd Hne].
  rewrite selectSchema_ordered by apply Hwell.
  rewrite loop_tables; [reflexivity | | assumption..].
  exact Hne.
Qed.

Lemma selectTables_names (c : Catalog) :
  selectTables c ≡ₚ map table_name (public c) /\
  StronglySorted String.le (selectTables c).
Proof.
  unfold selectTables. split.
  - rewrite merge_sort_Permutation. unfold information_schema_tables, public.
    induction c as [|t c IH]; [reflexivity|]. cbn [map].
    destruct (decide (table_schema t = "public")) as [Ht|Ht].
    + rewrite (filter_cons_True (fun t : Table => table_schema t = "public")) by exact Ht.
      rewrite filter_cons_True by exact Ht. cbn [map t_table_name]. now rewrite IH.
    + rewrite (filter_cons_False (fun t : Table => table_schema t = "public")) by exact Ht.
      rewrite filter_cons_False by exact Ht. exact IH.
  - apply (StronglySorted_fmap t_table_name byName String.le); [auto|].
    apply StronglySorted_merge_sort; apply _.
Qed.

(** An answer of the store to the schema query: the public rows of
    [information_schema.columns] in an order that [ORDER BY table_name,
    ordinal_position] admits. *)
Definition answers (c : Catalog) (rows : list ColumnsRow) : Prop :=
  rows ≡ₚ filter (fun r => c_table_schema r = "public") (information_schema_columns c)
  /\ Sorted byNamePosition rows.

(** The rows [selectSchema] works on are such an answer. *)
Lemma sorted_answers (c : Catalog) :
  answers c
    (merge_sort byNamePosition
       (filter (fun r => c_table_schema r = "public") (information_schema_columns c))).
Proof.
  split; [apply merge_sort_Permutation | apply Sorted_merge_sort; apply _].
Qed.

Section Introspector.
Context `{Backend}.

(** C7, as the code has it.  On a readable catalog [GetTables] returns
    the names of the relations of the namespace [public] sorted by name
    (not in the order of their declaration), and [GetSchema] renders the
    same relations in the same name order, each with its columns in the
    order of declaration. *)
Theorem introspection_order (w : World) (c : Catalog) :
  catalog (db w) = Ok c ->
  (exists names,
     (GetTables w).1 = Ok names /\
     names ≡ₚ map table_name (public c) /\
     StronglySorted String.le names)
  /\ (wellNamed c -> (GetSchema w).1 = Ok (describe c)).
Proof.
  intros Hc. split.
  - exists (selectTables c). rewrite (GetTables_run _ _ Hc), tablesLoop_Ok.
    split; [reflexivity | apply selectTables_names].
  - intros Hwell. rewrite (GetSchema_run _ _ Hc). now apply schemaLoop_describe.
Qed.

(** C8. Two calls of [GetSchema] in a row return the same result: a call
    leaves the store as it is, and the text depends on the catalog only.
    The order of the rows is no source of difference either: any two
    answers the [ORDER BY] clause admits are rendered to the same text. *)
Theorem GetSchema_stable (w : World) :
  (let first := GetSchema w in
   let second := GetSchema first.2 in
   second.1 = first.1 /\ db first.2 = db w /\ db second.2 = db w)
  /\ (forall (c : Catalog) (rows1 rows2 : list ColumnsRow),
        wellNamed c -> answers c rows1 -> answers c rows2 ->
        schemaLoop (map Ok (map project rows1)) "" "" =
        schemaLoop (map Ok (map project rows2)) "" "").
Proof.
  split.
  - destruct (catalog (db w)) as [c|e] eqn:Hc.
    + rewrite (GetSchema_run _ _ Hc). cbn [fst snd].
      rewrite (GetSchema_run _ c) by exact Hc. auto.
    + rewrite (GetSchema_down _ _ Hc). cbn [fst snd].
      rewrite (GetSchema_down _ e) by exact Hc. auto.
  - intros c rows1 rows2 [Hnd _] [Hp1 Hs1] [Hp2 Hs2].
    rewrite (ordered_rows c rows1), (ordered_rows c rows2);
      auto using Sorted_StronglySorted with typeclass_instances.
Qed.

End Introspector.

(** C7 on the sample store: three relations declared in the order
    [reviews], [audit], [restaurants]. *)
Lemma introspection_order_sample :
  let c := [Samples.reviews; Samples.audit; Samples.restaurants] in
  let w := Samples.start c Samples.noRows in
  (exists names,
     (@GetTables Samples.shop w).1 = Ok names /\
     names ≡ₚ map table_name (public c) /\
     StronglySorted String.le names)
  /\ (wellNamed c -> (@GetSchema Samples.shop w).1 = Ok (describe c)).
Proof.
  intros c w. apply (@introspection_order Samples.shop w c). reflexivity.
Defined.

Example sample_wellNamed :
  wellNamed [Samples.reviews; Samples.audit; Samples.restaurants].
Proof.
  split.
  - vm_compute. repeat constructor; intros Hin;
      repeat (apply elem_of_cons in Hin as [?|Hin]; [discriminate|]);
      inversion Hin.
  - intros t Ht. vm_compute in Ht.
    repeat (apply elem_of_cons in Ht as [->|Ht]; [discriminate|]).
    inversion Ht.
Qed.

Example GetSchema_sample :
  (@GetSchema Samples.shop
     (Samples.start [Samples.reviews; Samples.audit; Samples.restaurants]
        Samples.noRows)).1 =
  Ok ("TABLE restaurants (" +:+ LF +:+
      "  id integer," +:+ LF +:+
      "  name character varying," +:+ LF +:+
      "  city character varying," +:+ LF +:+
      ")" +:+ LF +:+
      "TABLE reviews (" +:+ LF +:+
      "  id integer," +:+ LF +:+
      "  body text," +:+ LF +:+
      ")" +:+ LF).
Proof. reflexivity. Qed.

(** C7 as stated fails on the code: the relations come back by name, not
    in the order of their declaration. *)
Lemma GetTables_not_declaration_order :
  let c := [Samples.reviews; Samples.audit; Samples.restaurants] in
  map table_name (public c) = ["reviews"; "restaurants"] /\
  (@GetTables Samples.shop (Samples.start c Samples.noRows)).1 =
    Ok ["restaurants"; "reviews"].
Proof. split; reflexivity. Qed.

End Schema.

(** * Part III: further properties of the handlers and their helpers *)

(** ** More on trimming and splitting *)

Module TextFacts.
Import Strings StringFacts SplitFacts TrimFacts.

Lemma skip_length (n : nat) (s : string) :
  String.length (skip n s) = (String.length s - n)%nat.
Proof.
  revert s. induction n as [|n IH]; intros [|c s]; simpl; try lia. apply IH.
Qed.

Lemma HasSuffix_app (a suffix : string) : HasSuffix (a +:+ suffix) suffix = true.
Proof.
  induction a as [|c a IH].
  - simpl. rewrite HasSuffix_unfold. now rewrite String.eqb_refl.
  - change (String c a +:+ suffix) with (String c (a +:+ suffix)).
    rewrite HasSuffix_unfold, IH. now destruct (String.eqb _ _).
Qed.

Lemma TrimSuffix_app (a suffix : string) : TrimSuffix (a +:+ suffix) suffix = a.
Proof.
  unfold TrimSuffix. rewrite HasSuffix_app, app_length, Nat.add_sub.
  apply take_app.
Qed.

(** *** White space at the two ends *)

Lemma spaces_nonempty (r : string) : In r spaces -> (0 < String.length r)%nat.
Proof.
  assert (forallb (fun r => 0 <? String.length r)%nat spaces = true) as Hall
    by (vm_compute; reflexivity).
  rewrite forallb_forall in Hall. intros Hr. now apply Nat.ltb_lt, Hall.
Qed.

Lemma leadingSpace_None (s r : string) :
  leadingSpace s = None -> In r spaces -> HasPrefix s r = false.
Proof. intros Hnone Hr. exact (List.find_none _ _ Hnone r Hr). Qed.

Lemma trailingSpace_None (s r : string) :
  trailingSpace s = None -> In r spaces -> HasSuffix s r = false.
Proof. intros Hnone Hr. exact (List.find_none _ _ Hnone r Hr). Qed.

(** A loop that meets no white space returns its text; a loop with
    enough fuel returns a text without white space at that end. *)
Lemma trimLeftLoop_fixed (fuel : nat) (s : string) :
  leadingSpace s = None -> trimLeftLoop fuel s = s.
Proof. intros Hs. destruct fuel; cbn [trimLeftLoop]; now rewrite ?Hs. Qed.

Lemma trimRightLoop_fixed (fuel : nat) (s : string) :
  trailingSpace s = None -> trimRightLoop fuel s = s.
Proof. intros Hs. destruct fuel; cbn [trimRightLoop]; now rewrite ?Hs. Qed.

Lemma trimLeftLoop_done (fuel : nat) (s : string) :
  (String.length s <= fuel)%nat -> leadingSpace (trimLeftLoop fuel s) = None.
Proof.
  revert s. induction fuel as [|fuel IH]; intros s Hlen; cbn [trimLeftLoop].
  - destruct s; [reflexivity | simpl in Hlen; lia].
  - destruct (leadingSpace s) as [r|] eqn:Hr; [|exact Hr].
    apply leadingSpace_Some in Hr as (Hin & t & ->). rewrite skip_app.
    apply IH. rewrite app_length in Hlen.
    pose proof (spaces_nonempty r Hin). lia.
Qed.

Lemma trimRightLoop_done (fuel : nat) (s : string) :
  (String.length s <= fuel)%nat -> trailingSpace (trimRightLoop fuel s) = None.
Proof.
  revert s. induction fuel as [|fuel IH]; intros s Hlen; cbn [trimRightLoop].
  - destruct s; [reflexivity | simpl in Hlen; lia].
  - destruct (trailingSpace s) as [r|] eqn:Hr; [|exact Hr].
    apply trailingSpace_Some in Hr as (Hin & t & ->). rewrite take_before.
    apply IH. rewrite app_length in Hlen.
    pose proof (spaces_nonempty r Hin). lia.
Qed.

Lemma TrimLeft_done (s : string) : leadingSpace (TrimLeft s) = None.
Proof. now apply trimLeftLoop_done. Qed.

Lemma TrimRight_done (s : string) : trailingSpace (TrimRight s) = None.
Proof. now apply trimRightLoop_done. Qed.

(** Cutting at the end leaves the start as it is. *)
Lemma TrimRight_leading (s : string) :
  leadingSpace s = None -> leadingSpace (TrimRight s) = None.
Proof.
  intros Hs. destruct (trimRightLoop_margin (String.length s) s) as (q & Heq & _).
  fold (TrimRight s) in Heq.
  destruct (leadingSpace (TrimRight s)) as [r|] eqn:Hr; [exfalso | reflexivity].
  apply leadingSpace_Some in Hr as (Hin & t & Ht).
  pose proof (leadingSpace_None s r Hs Hin) as Hno.
  rewrite Heq, Ht, app_assoc, HasPrefix_app in Hno. discriminate.
Qed.

(** [TrimSpace] leaves a text alone exactly when neither end is white
    space. *)
Lemma TrimSpace_ends (s : string) :
  TrimSpace s = s <-> leadingSpace s = None /\ trailingSpace s = None.
Proof.
  unfold TrimSpace. split.
  - intros Hs.
    destruct (trimLeftLoop_margin (String.length s) s) as (p & Hp & _).
    fold (TrimLeft s) in Hp.
    destruct (trimRightLoop_margin (String.length (TrimLeft s)) (TrimLeft s))
      as (q & Hq & _).
    fold (TrimRight (TrimLeft s)) in Hq. rewrite Hs in Hq.
    assert (TrimLeft s = s) as Hleft.
    { pose proof (f_equal String.length Hp) as H1.
      pose proof (f_equal String.length Hq) as H2.
      rewrite app_length in H1, H2.
      destruct p as [|x p]; [now rewrite Hp at 2 | simpl in H1; lia]. }
    split.
    + rewrite <- Hleft. apply TrimLeft_done.
    + rewrite <- Hs at 1. apply TrimRight_done.
  - intros [Hl Hr]. unfold TrimLeft. rewrite (trimLeftLoop_fixed _ _ Hl).
    unfold TrimRight. now apply trimRightLoop_fixed.
Qed.

(** What [TrimSpace] returns has no white space at either end, so
    trimming it again changes nothing. *)
Lemma TrimSpace_idem (s : string) : TrimSpace (TrimSpace s) = TrimSpace s.
Proof.
  apply TrimSpace_ends. unfold TrimSpace. split.
  - apply TrimRight_leading, TrimLeft_done.
  - apply TrimRight_done.
Qed.

(** Two texts that start the same text: one starts the other; likewise
    at the end. *)
Lemma prefixes_comparable (a b x y : string) :
  a +:+ x = b +:+ y -> HasPrefix a b = true \/ HasPrefix b a = true.
Proof.
  revert b. induction a as [|c a IH]; intros b Heq.
  - right. apply HasPrefix_spec. now exists b.
  - destruct b as [|d b].
    + left. apply HasPrefix_spec. now exists (String c a).
    + simpl in Heq. injection Heq as -> Heq.
      destruct (IH _ Heq) as [[t ->]%HasPrefix_spec|[t ->]%HasPrefix_spec].
      * left. apply HasPrefix_spec. now exists t.
      * right. apply HasPrefix_spec. now exists t.
Qed.

Lemma suffixes_comparable (a b x y : string) :
  x +:+ a = y +:+ b -> HasSuffix a b = true \/ HasSuffix b a = true.
Proof.
  revert y. induction x as [|c x IH]; intros y Heq.
  - left. simpl in Heq. rewrite Heq. apply HasSuffix_app.
  - destruct y as [|d y].
    + right. simpl in Heq. rewrite <- Heq.
      change (String c (x +:+ a)) with (String c x +:+ a). apply HasSuffix_app.
    + simpl in Heq. injection Heq as _ Heq. now apply (IH y).
Qed.

(** No encoding of white space starts or ends another one. *)
Lemma spaces_prefix_free (r r' : string) :
  In r spaces -> In r' spaces -> HasPrefix r r' = true -> r = r'.
Proof.
  assert (forallb (fun r => forallb (fun r' =>
            implb (HasPrefix r r') (String.eqb r r')) spaces) spaces = true) as Hall
    by (vm_compute; reflexivity).
  rewrite forallb_forall in Hall. intros Hr Hr' Hp.
  specialize (Hall r Hr). rewrite forallb_forall in Hall. specialize (Hall r' Hr').
  rewrite Hp in Hall. now apply String.eqb_eq.
Qed.

Lemma spaces_suffix_free (r r' : string) :
  In r spaces -> In r' spaces -> HasSuffix r r' = true -> r = r'.
Proof.
  assert (forallb (fun r => forallb (fun r' =>
            implb (HasSuffix r r') (String.eqb r r')) spaces) spaces = true) as Hall
    by (vm_compute; reflexivity).
  rewrite forallb_forall in Hall. intros Hr Hr' Hp.
  specialize (Hall r Hr). rewrite forallb_forall in Hall. specialize (Hall r' Hr').
  rewrite Hp in Hall. now apply String.eqb_eq.
Qed.

(** A text that starts (ends) with an encoding of white space has that
    white space as its first (last) rune. *)
Lemma leadingSpace_own (r t : string) :
  In r spaces -> leadingSpace (r +:+ t) = Some r.
Proof.
  intros Hr. destruct (leadingSpace (r +:+ t)) as [r'|] eqn:Hfound.
  - apply leadingSpace_Some in Hfound as (Hr' & t' & Heq).
    destruct (prefixes_comparable _ _ _ _ Heq) as [Hp|Hp].
    + now rewrite (spaces_prefix_free r r' Hr Hr' Hp).
    + now rewrite (spaces_prefix_free r' r Hr' Hr Hp).
  - pose proof (leadingSpace_None _ r Hfound Hr) as Hno.
    rewrite HasPrefix_app in Hno. discriminate.
Qed.

Lemma trailingSpace_own (r t : string) :
  In r spaces -> trailingSpace (t +:+ r) = Some r.
Proof.
  intros Hr. destruct (trailingSpace (t +:+ r)) as [r'|] eqn:Hfound.
  - apply trailingSpace_Some in Hfound as (Hr' & t' & Heq).
    destruct (suffixes_comparable _ _ _ _ Heq) as [Hp|Hp].
    + now rewrite (spaces_suffix_free r r' Hr Hr' Hp).
    + now rewrite (spaces_suffix_free r' r Hr' Hr Hp).
  - pose proof (trailingSpace_None _ r Hfound Hr) as Hno.
    rewrite HasSuffix_app in Hno. discriminate.
Qed.

Lemma TrimLeft_rune (r t : string) :
  In r spaces -> leadingSpace t = None -> TrimLeft (r +:+ t) = t.
Proof.
  intros Hr Ht. unfold TrimLeft. pose proof (spaces_nonempty r Hr) as Hlen.
  destruct (String.length (r +:+ t)) as [|n] eqn:Hn;
    [rewrite app_length in Hn; lia|].
  cbn [trimLeftLoop]. rewrite (leadingSpace_own r t Hr), skip_app.
  now apply trimLeftLoop_fixed.
Qed.

Lemma TrimRight_rune (r t : string) :
  In r spaces -> trailingSpace t = None -> TrimRight (t +:+ r) = t.
Proof.
  intros Hr Ht. unfold TrimRight. pose proof (spaces_nonempty r Hr) as Hlen.
  destruct (String.length (t +:+ r)) as [|n] eqn:Hn;
    [rewrite app_length in Hn; lia|].
  cbn [trimRightLoop]. rewrite (trailingSpace_own r t Hr), take_before.
  now apply trimRightLoop_fixed.
Qed.

(** The bytes that start, and the bytes that end, an encoding of white
    space. *)
Definition starts (c : ascii) : bool :=
  existsb (fun r => HasPrefix r (String c "")) spaces.

Definition ends (c : ascii) : bool :=
  existsb (fun r => HasSuffix r (String c "")) spaces.

Lemma existsb_none {A} (f : A -> bool) (l : list A) (x : A) :
  existsb f l = false -> In x l -> f x = false.
Proof.
  intros Hnone Hx. destruct (f x) eqn:Hfx; [|reflexivity].
  rewrite <- Hnone. symmetry. apply existsb_exists. eauto.
Qed.

Lemma leadingSpace_other (c : ascii) (s : string) :
  starts c = false -> leadingSpace (String c s) = None.
Proof.
  intros Hc. destruct (leadingSpace (String c s)) as [r|] eqn:Hr; [exfalso|reflexivity].
  apply leadingSpace_Some in Hr as (Hin & t & Heq).
  pose proof (spaces_nonempty r Hin) as Hlen.
  pose proof (existsb_none _ _ r Hc Hin) as Hno. cbn beta in Hno.
  destruct r as [|d r]; [simpl in Hlen; lia|].
  simpl in Heq. injection Heq as -> _.
  assert (HasPrefix (String d r) (String d "") = true) as Hp
    by (apply HasPrefix_spec; now exists r).
  congruence.
Qed.

Lemma trailingSpace_other (c : ascii) (s : string) :
  ends c = false -> trailingSpace (s +:+ String c "") = None.
Proof.
  intros Hc.
  destruct (trailingSpace (s +:+ String c "")) as [r|] eqn:Hr; [exfalso|reflexivity].
  apply trailingSpace_Some in Hr as (Hin & t & Heq).
  pose proof (spaces_nonempty r Hin) as Hlen.
  pose proof (existsb_none _ _ r Hc Hin) as Hno. cbn beta in Hno.
  destruct (suffixes_comparable _ _ _ _ Heq) as [Hp|Hp]; [|congruence].
  rewrite HasSuffix_unfold in Hp.
  destruct (String.eqb_spec (String c "") r) as [<-|Hne].
  - rewrite HasSuffix_unfold, String.eqb_refl in Hno. discriminate.
  - rewrite HasSuffix_unfold in Hp.
    destruct (String.eqb_spec "" r) as [<-|Hne']; [simpl in Hlen; lia | discriminate].
Qed.

(** Behind a non-empty text that starts with no white space, a line
    feed makes no white space of its start. *)
Definition inner (c : ascii) (r : string) : bool :=
  match r with
  | EmptyString => false
  | String _ r' => anyb (Ascii.eqb c) r'
  end.

Lemma anyb_app (P : ascii -> bool) (a b : string) :
  anyb P (a +:+ b) = anyb P a || anyb P b.
Proof.
  induction a as [|x a IH]; simpl; [reflexivity|].
  now rewrite IH, orb_assoc.
Qed.

Lemma app_inv_head (a x y : string) : a +:+ x = a +:+ y -> x = y.
Proof. induction a as [|c a IH]; simpl; [auto|]. intros [= Heq]. auto. Qed.

Lemma leadingSpace_line (body t : string) :
  leadingSpace body = None -> body <> "" ->
  leadingSpace (body +:+ LF +:+ t) = None.
Proof.
  intros Hbody Hne.
  destruct (leadingSpace (body +:+ LF +:+ t)) as [r|] eqn:Hr; [exfalso|reflexivity].
  apply leadingSpace_Some in Hr as (Hin & t' & Heq).
  pose proof (leadingSpace_None body r Hbody Hin) as Hno.
  destruct (prefixes_comparable _ _ _ _ Heq) as [Hp|Hp]; [congruence|].
  apply HasPrefix_spec in Hp as [r2 ->].
  rewrite app_assoc in Heq. apply app_inv_head in Heq.
  destruct r2 as [|c r2].
  - rewrite app_nil_r in Hno.
    rewrite <- (app_nil_r body) in Hno at 1. rewrite HasPrefix_app in Hno.
    discriminate.
  - simpl in Heq. injection Heq as <- _.
    assert (forallb (fun r => negb (inner (ascii_of_nat 10) r)) spaces = true) as Hall
      by (vm_compute; reflexivity).
    rewrite forallb_forall in Hall. specialize (Hall _ Hin).
    destruct body as [|d body]; [congruence|].
    cbn [inner String.append] in Hall. rewrite anyb_app in Hall. simpl in Hall.
    rewrite orb_true_r in Hall. discriminate.
Qed.

(** *** [Split] and [Join] *)

(** [strings.Join(parts, sep)] *)
Fixpoint Join (parts : list string) (sep : string) : string :=
  match parts with
  | [] => ""
  | [x] => x
  | x :: parts' => x +:+ sep +:+ Join parts' sep
  end.

Lemma splitLoop_nonempty (fuel : nat) (s sep : string) : splitLoop fuel s sep <> [].
Proof. destruct fuel; simpl; [easy|]. now destruct (Index s sep). Qed.

(** With enough fuel the loop cuts at every separator: joining the parts
    gives the text back, and no part contains the separator. *)
Lemma splitLoop_spec (fuel : nat) (s sep : string) :
  sep <> "" -> (String.length s < fuel)%nat ->
  Join (splitLoop fuel s sep) sep = s /\
  forall part, part ∈ splitLoop fuel s sep -> ~ occurs sep part.
Proof.
  intros Hsep. revert s. induction fuel as [|fuel IH]; intros s Hlen; [lia|].
  cbn [splitLoop]. destruct (Index s sep) as [m|] eqn:Hm.
  - destruct (Index_Some _ _ _ Hm) as (Hle & Hfirst).
    pose proof (firstAt_rest _ _ _ Hfirst) as Hrest.
    rewrite (take_length m s Hle) in Hrest.
    assert (0 < String.length sep)%nat as Hpos
      by (destruct sep; [congruence | simpl; lia]).
    pose proof (f_equal String.length Hrest) as Hsize.
    rewrite !app_length, (take_length m s Hle) in Hsize.
    destruct (IH (skip (m + String.length sep) s)) as [Hjoin Hparts]; [lia|].
    split.
    + cbn [Join].
      destruct (splitLoop fuel (skip (m + String.length sep) s) sep) eqn:Hl;
        [now apply splitLoop_nonempty in Hl|].
      rewrite Hjoin. now symmetry.
    + intros part [->|Hin]%elem_of_cons; [|now apply Hparts].
      intros (pre & post & Heq). destruct Hfirst as [_ Hmin].
      specialize (Hmin pre (post +:+ sep +:+ skip (m + String.length sep) s)).
      rewrite (take_length m s Hle) in Hmin.
      assert (String.length (take m s) = m) as Hm' by now apply take_length.
      rewrite Heq, !app_length in Hm'.
      enough (m <= String.length pre)%nat by lia. apply Hmin.
      rewrite Hrest at 1. rewrite Heq. now rewrite !app_assoc.
  - split; [reflexivity|].
    intros part ->%list_elem_of_singleton. now apply Index_None.
Qed.

Lemma Split_spec (s sep : string) :
  sep <> "" ->
  Join (Split s sep) sep = s /\
  forall part, part ∈ Split s sep -> ~ occurs sep part.
Proof. intros Hsep. apply splitLoop_spec; [assumption | lia]. Qed.

End TextFacts.

(** ** The text taken from a generator response *)

Module ResponseText.
Import Strings gemini StringFacts TrimFacts TextFacts Query.

Lemma getResponseText_trimmed (resp : GenerateContentResponse) :
  trimmed margin (rawText resp) (getResponseText resp).
Proof.
  destruct resp as [|[[|part parts]|] rest]; try apply trimmed_refl.
  unfold getResponseText, rawText.
  generalize (texts (part :: parts)). intros raw.
  repeat first
    [ apply trimmed_refl
    | eapply trimmed_trans;
      [| first [ apply trimmed_space_margin, TrimSpace_trimmed
               | apply TrimPrefix_trimmed; reflexivity
               | apply TrimSuffix_trimmed; reflexivity ] ] ].
Qed.

(** X1. The text [getResponseText] takes from a response is a contiguous
    piece of the text parts of the first candidate: what is cut, at the
    two ends only, is bytes of white space (of ASCII or beyond) and of the
    code fence.  The piece has no white space at its ends; neither has
    the text that [NaturalLanguageToSQL] makes of it. *)
Theorem getResponseText_piece (resp : GenerateContentResponse) :
  (exists p q,
     rawText resp = p +:+ getResponseText resp +:+ q /\
     allb margin p = true /\ allb margin q = true)
  /\ TrimSpace (getResponseText resp) = getResponseText resp
  /\ TrimSpace (cleanSQL (getResponseText resp)) = cleanSQL (getResponseText resp).
Proof.
  split; [apply getResponseText_trimmed|]. split.
  - destruct resp as [|[[|part parts]|] rest]; try reflexivity.
    unfold getResponseText. apply TrimSpace_idem.
  - unfold cleanSQL. apply TrimSpace_idem.
Qed.

Example getResponseText_no_break_space :
  getResponseText
    [Some [Text (bytes [194; 160] +:+ "SELECT 1" +:+ bytes [227; 128; 128] +:+ LF)]] =
    "SELECT 1".
Proof. reflexivity. Qed.

(** The clean-up on a fenced answer, step by step. *)
Lemma LF_space : In LF spaces.
Proof. right. now left. Qed.

Lemma fence_end (s : string) : TrimRight (s +:+ "```") = s +:+ "```".
Proof.
  replace (s +:+ "```") with ((s +:+ "``") +:+ String "`" "")
    by (now rewrite app_assoc).
  unfold TrimRight. now apply trimRightLoop_fixed, trailingSpace_other.
Qed.

Lemma fence_start (s : string) : TrimLeft (String "`" s) = String "`" s.
Proof. unfold TrimLeft. now apply trimLeftLoop_fixed, leadingSpace_other. Qed.

Lemma unfence (body : string) :
  TrimSpace body = body ->
  TrimSpace (TrimSuffix (TrimSpace (LF +:+ body +:+ LF +:+ "```")) "```") = body.
Proof.
  intros Hbody. destruct (String.eqb_spec body "") as [->|Hne]; [reflexivity|].
  apply TrimSpace_ends in Hbody as [Hl Hr].
  assert (TrimSpace (LF +:+ body +:+ LF +:+ "```") = body +:+ LF +:+ "```") as ->.
  { unfold TrimSpace.
    rewrite (TrimLeft_rune LF) by (apply LF_space || now apply leadingSpace_line).
    rewrite <- app_assoc. apply fence_end. }
  rewrite <- app_assoc, TrimSuffix_app. unfold TrimSpace.
  assert (TrimLeft (body +:+ LF) = body +:+ LF) as ->.
  { unfold TrimLeft. apply trimLeftLoop_fixed.
    exact (leadingSpace_line body "" Hl Hne). }
  apply TrimRight_rune; [apply LF_space | exact Hr].
Qed.

(** X2. A fenced answer is unwrapped: for a text [body] without white
    space at its ends, the response that holds [body] on its own lines
    between a sql code fence (or a plain one) and the closing fence gives
    [body]. *)
Theorem getResponseText_fenced (body : string) :
  TrimSpace body = body ->
  getResponseText [Some [Text ("```sql" +:+ LF +:+ body +:+ LF +:+ "```")]] = body
  /\ getResponseText [Some [Text ("```" +:+ LF +:+ body +:+ LF +:+ "```")]] = body.
Proof.
  intros Hbody. unfold getResponseText. cbn [texts foldr]. rewrite !app_nil_r.
  assert (forall s, TrimSpace (String "`" s +:+ "```") = String "`" s +:+ "```") as Hfence.
  { intros s. unfold TrimSpace.
    change (String "`" s +:+ "```") with (String "`" (s +:+ "```")).
    rewrite fence_start.
    change (String "`" (s +:+ "```")) with (String "`" s +:+ "```").
    apply fence_end. }
  split.
  - replace ("```sql" +:+ LF +:+ body +:+ LF +:+ "```")
      with (String "`" ("``sql" +:+ LF +:+ body +:+ LF) +:+ "```")
      by (simpl; now rewrite !app_assoc).
    rewrite Hfence.
    replace (String "`" ("``sql" +:+ LF +:+ body +:+ LF) +:+ "```")
      with ("```sql" +:+ LF +:+ body +:+ LF +:+ "```")
      by (simpl; now rewrite !app_assoc).
    change (TrimPrefix ("```sql" +:+ LF +:+ body +:+ LF +:+ "```") "```sql")
      with (LF +:+ body +:+ LF +:+ "```").
    change (TrimPrefix (LF +:+ body +:+ LF +:+ "```") "```")
      with (LF +:+ body +:+ LF +:+ "```").
    now apply unfence.
  - replace ("```" +:+ LF +:+ body +:+ LF +:+ "```")
      with (String "`" ("``" +:+ LF +:+ body +:+ LF) +:+ "```")
      by (simpl; now rewrite !app_assoc).
    rewrite Hfence.
    replace (String "`" ("``" +:+ LF +:+ body +:+ LF) +:+ "```")
      with ("```" +:+ LF +:+ body +:+ LF +:+ "```")
      by (simpl; now rewrite !app_assoc).
    change (TrimPrefix ("```" +:+ LF +:+ body +:+ LF +:+ "```") "```sql")
      with ("```" +:+ LF +:+ body +:+ LF +:+ "```").
    change (TrimPrefix ("```" +:+ LF +:+ body +:+ LF +:+ "```") "```")
      with (LF +:+ body +:+ LF +:+ "```").
    now apply unfence.
Qed.

Lemma getResponseText_fenced_sample :
  getResponseText
    [Some [Text ("```sql" +:+ LF +:+ "INSERT INTO t VALUES (1);" +:+ LF +:+ "```")]] =
    "INSERT INTO t VALUES (1);"
  /\ getResponseText
       [Some [Text ("```" +:+ LF +:+ "INSERT INTO t VALUES (1);" +:+ LF +:+ "```")]] =
       "INSERT INTO t VALUES (1);".
Proof. apply (getResponseText_fenced "INSERT INTO t VALUES (1);"). reflexivity. Defined.

(** Without text parts there is no text. *)
Example getResponseText_no_candidate : getResponseText [] = "".
Proof. reflexivity. Qed.

Example getResponseText_no_text : getResponseText [Some [Blob; Blob]] = "".
Proof. reflexivity. Qed.

Example getResponseText_parts :
  getResponseText [Some [Text "  SELECT"; Blob; Text " 1 "]; Some [Text "SELECT 2"]] =
    "SELECT 1".
Proof. reflexivity. Qed.

End ResponseText.

(** ** More on the generation handler *)

Module GenerationFacts.
Import Strings database gemini web StringFacts TrimFacts TextFacts Introspection
  Query Transaction Schema.

(** X3. The fragments [generateData] cuts the generator output into
    cover the output (joined by semicolons they give it back), and every
    statement of the batch made of them is non-empty, has no white space
    at its ends and contains no semicolon: a semicolon inside a string
    literal cuts a statement like any other. *)
Theorem batch_statements (sqlResult : string) :
  Join (Split sqlResult ";") ";" = sqlResult
  /\ forall stmt, stmt ∈ batch sqlResult ->
       stmt <> "" /\ TrimSpace stmt = stmt /\ ~ occurs ";" stmt.
Proof.
  destruct (Split_spec sqlResult ";") as [Hjoin Hparts]; [discriminate|].
  split; [exact Hjoin|]. intros stmt Hin. unfold batch in Hin.
  apply list_elem_of_filter in Hin as [Hne Hin].
  apply list_elem_of_In, in_map_iff in Hin as (part & <- & Hpart).
  apply list_elem_of_In in Hpart. split; [exact Hne|]. split.
  - apply TrimSpace_idem.
  - intros Hocc. apply (Hparts part Hpart).
    exact (trimmed_occurs spaceByte _ _ _ (TrimSpace_trimmed part) Hocc).
Qed.

Example batch_literal_cut :
  batch "INSERT INTO t VALUES ('a;b');" = ["INSERT INTO t VALUES ('a"; "b')"].
Proof. reflexivity. Qed.

Example batch_blank : batch (" ;" +:+ LF +:+ "; ") = [].
Proof. reflexivity. Qed.

(** A fragment of white space beyond ASCII is blank too. *)
Example batch_no_break_space :
  batch ("INSERT INTO t VALUES (1);" +:+ bytes [194; 160] +:+ ";INSERT INTO t VALUES (2)") =
    ["INSERT INTO t VALUES (1)"; "INSERT INTO t VALUES (2)"].
Proof. reflexivity. Qed.

Section Batch.
Context `{Backend}.

Lemma batchEvents_done (stmts : list string) (s s' : Store) :
  applyAll stmts s = inr s' -> batchEvents stmts s = map Executed stmts.
Proof.
  revert s. induction stmts as [|stmt stmts IH]; intros s; simpl; [reflexivity|].
  destruct (exec stmt s) as [s1|e]; [|discriminate].
  intros Hs. now rewrite (IH _ Hs).
Qed.

Lemma batchEvents_stopped (stmts : list string) (s : Store) (e stmt : string) :
  applyAll stmts s = inl (e, stmt) ->
  exists before rest s1,
    stmts = before ++ stmt :: rest /\
    applyAll before s = inr s1 /\ exec stmt s1 = Err e /\
    batchEvents stmts s = map Executed (before ++ [stmt]) ++ [RolledBack].
Proof.
  revert s. induction stmts as [|st stmts IH]; intros s; simpl; [discriminate|].
  destruct (exec st s) as [s1|e'] eqn:Hrun.
  - intros Hfail. destruct (IH _ Hfail) as (before & rest & s2 & -> & Hb & Hr & Hev).
    exists (st :: before), rest, s2. simpl. rewrite Hrun, Hev. auto.
  - intros [= -> ->]. exists [], stmts, s. simpl. auto.
Qed.

(** X4. Inside the transaction the statements of the batch are handed to
    [tx.Exec] in the order of the generator output, one call each, and no
    statement is held back for the keywords it holds.  When all succeed
    the calls are [Begin], the statements, [Commit]; when one fails, the
    statements before it ran, it is the last one handed over, and
    [Rollback] follows. *)
Theorem executeBatch_order (sqlResult : string) (w : World) :
  beginFails (db w) = None ->
  let stmts := batch sqlResult in
  let w' := (executeBatch sqlResult w).2 in
  match applyAll stmts (db w) with
  | inr _ => trace w' = trace w ++ Began :: map Executed stmts ++ [Committed]
  | inl (e, stmt) =>
      exists before rest s1,
        stmts = before ++ stmt :: rest /\
        applyAll before (db w) = inr s1 /\ exec stmt s1 = Err e /\
        trace w' =
          trace w ++ Began :: map Executed (before ++ [stmt]) ++ [RolledBack]
  end.
Proof.
  intros Hbegin stmts w'. subst w'. rewrite executeBatch_run, Hbegin. fold stmts.
  destruct (applyAll stmts (db w)) as [[e stmt]|s] eqn:Happly.
  - destruct (batchEvents_stopped _ _ _ _ Happly)
      as (before & rest & s1 & Hstmts & Hb & Hr & Hev).
    exists before, rest, s1. cbn [snd logged trace]. now rewrite Hev.
  - rewrite (batchEvents_done _ _ _ Happly).
    now destruct (commitFails s).
Qed.

End Batch.

(** X4 on the sample store: a DROP statement in the generator output is
    handed to the store like any other statement. *)
Lemma executeBatch_order_sample :
  let w := Samples.start [Samples.restaurants] Samples.noRows in
  let sqlResult := "INSERT INTO t VALUES (1); DROP TABLE restaurants; INSERT INTO t VALUES (2)" in
  exists before rest s1,
    batch sqlResult = before ++ "DROP TABLE restaurants" :: rest /\
    @applyAll Samples.shop before (db w) = inr s1 /\
    @exec Samples.shop "DROP TABLE restaurants" s1 = Err "pq: syntax error" /\
    trace (@executeBatch Samples.shop sqlResult w).2 =
      trace w ++ Began :: map Executed (before ++ ["DROP TABLE restaurants"])
              ++ [RolledBack].
Proof.
  intros w sqlResult.
  exact (@executeBatch_order Samples.shop sqlResult w eq_refl).
Defined.

(** *** Replies and the store *)

Definition isError (reply : Reply) : bool :=
  match reply with
  | Error _ _ => true
  | _ => false
  end.

Section Handler.
Context `{Backend} `{Generator}.

Lemma preview_not_error (w : World) : isError (preview w).1 = false.
Proof.
  unfold preview, bind at 1.
  destruct (GetTables w) as [[[|table0 tables]|e] w1]; try reflexivity.
  unfold bind at 1.
  destruct (fetchingTableData table0 w1) as [[rows|e] w2]; reflexivity.
Qed.

Lemma generateData_outcome (r : Request GenerateRequest) (w : World) :
  exists reply w',
    generateData r w = (reply, w') /\ (isError reply = true -> db w' = db w).
Proof.
  unfold generateData.
  destruct (negb (String.eqb (Method r) "POST")); [now eexists _, _|].
  destruct (Body r) as [req|]; [|now eexists _, _].
  destruct (catalog (db w)) as [c|e] eqn:Hc.
  - unfold bind at 1. rewrite (GetSchema_run _ _ Hc), schemaLoop_schemaOf.
    destruct (String.eqb (schemaOf c) ""); [now eexists _, _|].
    unfold bind at 1, GenerateDataSQL, bind at 1, emit. cbn [db trace logged].
    destruct (GenerateContent _ _ _ _) as [resp|e]; [|now eexists _, _].
    destruct (nilContent resp); [now eexists _, _|].
    unfold ret at 1. unfold bind at 1. rewrite executeBatch_run. cbn [db].
    destruct (beginFails (db w)); [now eexists _, _|].
    destruct (applyAll _ (db w)) as [[e stmt]|s]; [now eexists _, _|].
    destruct (commitFails s); [now eexists _, _|].
    match goal with |- context [preview ?w2] =>
      pose proof (preview_not_error w2) as Hp; destruct (preview w2) as [reply w3]
    end.
    exists reply, w3. split; [reflexivity|]. simpl in Hp. congruence.
  - unfold bind at 1. rewrite (GetSchema_down _ _ Hc). now eexists _, _.
Qed.

(** X5. An error reply of [generateData] means that the store is as it
    was before the request: whatever went wrong (method, body, catalog,
    generator, [Begin], a statement, [Commit]), nothing of the batch is
    applied. *)
Theorem generateData_error_keeps_store (r : Request GenerateRequest) (w : World) :
  isError (generateData r w).1 = true ->
  db (generateData r w).2 = db w.
Proof.
  destruct (generateData_outcome r w) as (reply & w' & -> & Hkeep). exact Hkeep.
Qed.

(** X6. An answer of the generator in which the handler finds no
    statement is not an error.  When the first candidate of the answer
    has content and the batch made of its text is empty (as it is for the
    sample answer below, of semicolons and white space only),
    [generateData] begins and commits a transaction without a statement
    and replies with the preview.  When the first candidate has no
    content, [getResponseText] panics on the nil pointer: the handler
    writes no reply, and no transaction is begun. *)
Theorem generateData_empty_answer (r : Request GenerateRequest)
    (req : GenerateRequest) (w : World) (c : Catalog)
    (resp : GenerateContentResponse) :
  Method r = "POST" -> Body r = Some req ->
  catalog (db w) = Ok c -> schemaOf c <> "" ->
  GenerateContent dataSystemInstruction (Temperature req) (int32 (MaxTokens req))
    (dataPrompt (schemaOf c)) = Ok resp ->
  (nilContent resp = true ->
   generateData r w =
     (Aborted, {| db := db w;
                  trace := trace w ++ [Introspected schemaQuery;
                                        Asked (dataPrompt (schemaOf c))] |}))
  /\ (nilContent resp = false ->
      batch (getResponseText resp) = [] ->
      beginFails (db w) = None -> commitFails (db w) = None ->
      generateData r w =
        preview {| db := db w;
                   trace := trace w ++ [Introspected schemaQuery;
                                         Asked (dataPrompt (schemaOf c));
                                         Began; Committed] |}
      /\ isError (generateData r w).1 = false).
Proof.
  intros Hm Hb Hc Hschema Hg. split.
  - intros Hnil. now rewrite (generateData_panics r req w c resp).
  - intros Hnil Hbatch Hbegin Hcommit.
    rewrite (generateData_run r req w c resp) by assumption. cbv zeta.
    rewrite executeBatch_run. cbn [db logged trace]. rewrite Hbegin, Hbatch.
    cbn [applyAll batchEvents]. rewrite Hcommit. rewrite <- List.app_assoc.
    split; [reflexivity | apply preview_not_error].
Qed.

End Handler.

Lemma generateData_error_keeps_store_sample :
  let g := Samples.says "INSERT INTO t VALUES (1); INSERT INTO t VALUES (1);" in
  let w := Samples.start [Samples.restaurants] Samples.noRows in
  let r := Samples.post (@Build_GenerateRequest g tt 100%Z) in
  db (@generateData Samples.shop g r w).2 = db w.
Proof.
  intros g w r. apply (@generateData_error_keeps_store Samples.shop g r w).
  reflexivity.
Defined.

(** X6 on the sample store: an answer of semicolons and white space, of
    ASCII and beyond (U+00A0, U+3000), and an answer without content. *)
Definition blankAnswer : string :=
  " ;" +:+ bytes [194; 160] +:+ LF +:+ "; " +:+ bytes [227; 128; 128].

Lemma generateData_empty_answer_sample :
  let w := Samples.start [Samples.restaurants] Samples.noRows in
  let asked := [Introspected schemaQuery;
                Asked (dataPrompt (schemaOf [Samples.restaurants]))] in
  (let g := Samples.says blankAnswer in
   let r := Samples.post (@Build_GenerateRequest g tt 100%Z) in
   @generateData Samples.shop g r w =
     @preview Samples.shop {| db := db w; trace := trace w ++ asked ++ [Began; Committed] |}
   /\ isError (@generateData Samples.shop g r w).1 = false)
  /\ (let g := Samples.scripted (Ok [None]) in
      let r := Samples.post (@Build_GenerateRequest g tt 100%Z) in
      @generateData Samples.shop g r w =
        (Aborted, {| db := db w; trace := trace w ++ asked |})).
Proof.
  intros w asked.
  assert (schemaOf [Samples.restaurants] <> "") as Hschema
    by (intros Hempty; vm_compute in Hempty; discriminate).
  split.
  - intros g r.
    destruct (@generateData_empty_answer Samples.shop g r
                (@Build_GenerateRequest g tt 100%Z) w [Samples.restaurants]
                [Some [Text blankAnswer]] eq_refl eq_refl eq_refl Hschema eq_refl)
      as [_ Hblank].
    exact (Hblank eq_refl eq_refl eq_refl eq_refl).
  - intros g r.
    destruct (@generateData_empty_answer Samples.shop g r
                (@Build_GenerateRequest g tt 100%Z) w [Samples.restaurants]
                [None] eq_refl eq_refl eq_refl Hschema eq_refl)
      as [Hpanic _].
    exact (Hpanic eq_refl).
Defined.

(** *** An empty schema text *)

Lemma schemaLoop_grows (rows : list (string * string * string)) (b cur text : string) :
  schemaLoop (map Ok rows) b cur = Ok text ->
  (String.length b <= String.length text)%nat.
Proof.
  revert b cur. induction rows as [|[[t cn] dt] rows IH]; intros b cur.
  - simpl. destruct (negb (String.eqb cur "")); intros [= <-];
      rewrite ?app_length; lia.
  - cbn [map]. rewrite schemaLoop_row.
    destruct (String.eqb t cur); intros Hrest%IH;
      rewrite !app_length in Hrest; lia.
Qed.

Lemma schemaLoop_empty (rows : list (string * string * string)) :
  schemaLoop (map Ok rows) "" "" = Ok "" -> rows = [].
Proof.
  destruct rows as [|[[t cn] dt] rows]; [reflexivity|]. cbn [map].
  rewrite schemaLoop_row.
  destruct (String.eqb t ""); intros Hrest%schemaLoop_grows;
    rewrite !app_length in Hrest; unfold line in Hrest;
    rewrite !app_length in Hrest; simpl in Hrest; lia.
Qed.

Lemma columnsOf_nil t : columnsOf t = [] <-> columns t = [].
Proof. unfold columnsOf. destruct (columns t); simpl; split; congruence. Qed.

Lemma flat_map_nil {A B} (f : A -> list B) (l : list A) :
  flat_map f l = [] <-> forall x, x ∈ l -> f x = [].
Proof.
  induction l as [|x l IH]; simpl.
  - split; [intros _ y Hy; inversion Hy | reflexivity].
  - split.
    + intros [Hx Hl]%app_eq_nil y [->|Hy]%elem_of_cons; [assumption|].
      now apply IH.
    + intros Hall. rewrite (Hall x) by now left. apply IH.
      intros y Hy. apply Hall. now right.
Qed.

(** The schema text is empty exactly when no public relation has a column. *)
Lemma schemaOf_empty (c : Catalog) :
  schemaOf c = "" <-> forall t, t ∈ public c -> columns t = [].
Proof.
  assert (selectSchema c = [] <-> forall t, t ∈ public c -> columns t = []) as Hrows.
  { unfold selectSchema. rewrite columns_public. split.
    - intros Hnil t Ht. apply columnsOf_nil.
      apply map_eq_nil in Hnil.
      assert (flat_map columnsOf (public c) = []) as Hflat.
      { apply Permutation_nil. rewrite <- Hnil. apply merge_sort_Permutation. }
      now apply (proj1 (flat_map_nil _ _) Hflat).
    - intros Hall.
      assert (flat_map columnsOf (public c) = []) as ->; [|reflexivity].
      apply flat_map_nil. intros t Ht. now apply columnsOf_nil, Hall. }
  rewrite <- Hrows. split.
  - intros Hempty. apply schemaLoop_empty.
    now rewrite schemaLoop_schemaOf, Hempty.
  - intros Hnil. unfold schemaOf. now rewrite Hnil.
Qed.

Section Columnless.
Context `{Backend} `{Generator}.

(** X7. For a well-formed request on a readable catalog, [generateData]
    answers [No tables found in database] exactly when no relation of the
    namespace [public] has a column: relations without columns count as
    no tables, and one column anywhere is enough to go on. *)
Theorem generateData_columnless (r : Request GenerateRequest)
    (req : GenerateRequest) (w : World) (c : Catalog) :
  Method r = "POST" -> Body r = Some req -> catalog (db w) = Ok c ->
  ((forall t, t ∈ public c -> columns t = []) <->
   (generateData r w).1 = Error "No tables found in database" 400).
Proof.
  intros Hm Hb Hc. rewrite <- schemaOf_empty. unfold generateData.
  rewrite Hm, Hb, String.eqb_refl. cbn [negb].
  unfold bind at 1. rewrite (GetSchema_run _ _ Hc), schemaLoop_schemaOf.
  destruct (String.eqb_spec (schemaOf c) "") as [Hempty|Hfull]; [easy|].
  split; [contradiction|]. intros Hreply. exfalso. revert Hreply.
  unfold bind at 1, GenerateDataSQL, bind at 1, emit. cbn [db trace logged].
  destruct (GenerateContent _ _ _ _) as [resp|e]; [|discriminate].
  destruct (nilContent resp); [discriminate|].
  unfold ret at 1. unfold bind at 1. rewrite executeBatch_run. cbn [db].
  destruct (beginFails (db w)); [discriminate|].
  destruct (applyAll _ (db w)) as [[e stmt]|s]; [discriminate|].
  destruct (commitFails s); [discriminate|].
  match goal with |- context [preview ?w2] =>
    pose proof (preview_not_error w2) as Hp; destruct (preview w2) as [reply w3]
  end.
  simpl in *. intros ->. discriminate.
Qed.


End Columnless.

Definition shelf :=
  {| table_schema := "public"; table_name := "shelf"; columns := [] |}.

Lemma generateData_columnless_sample :
  let g := Samples.says "INSERT INTO shelf DEFAULT VALUES;" in
  let w := Samples.start [shelf] Samples.noRows in
  let r := Samples.post (@Build_GenerateRequest g tt 100%Z) in
  (forall t, t ∈ public [shelf] -> columns t = []) <->
  (@generateData Samples.shop g r w).1 = Error "No tables found in database" 400.
Proof.
  intros g w r.
  apply (@generateData_columnless Samples.shop g r (@Build_GenerateRequest g tt 100%Z)
           w [shelf]); reflexivity.
Defined.

Example int32_wraps :
  int32 (2 ^ 31) = (- 2 ^ 31)%Z /\ int32 4294968320 = 1024%Z /\ int32 (-1) = (-1)%Z.
Proof. repeat split. Qed.

End GenerationFacts.

(** ** More on the query handler and the safety filter *)

Module QueryFacts.
Import Strings database gemini web StringFacts SplitFacts Introspection Query
  SafetyFilter.

Section Handler.
Context `{Backend} `{Generator}.

(** X9. Whatever the request, the store and the generator: the calls of
    [query] are a prefix of "catalog query, question to the generator,
    one statement to the store", it opens no transaction, and the one
    statement it may hand to the store has passed the safety filter. *)
Theorem query_only_safe_statements (r : Request string) (w : World) :
  exists events,
    trace (query r w).2 = trace w ++ events /\
    (events = [] \/
     events = [Introspected schemaQuery] \/
     (exists input, events = [Introspected schemaQuery; Asked input]) \/
     (exists input sql,
        events = [Introspected schemaQuery; Asked input; Queried sql] /\
        IsQuerySafe sql = true)).
Proof.
  unfold query.
  destruct (String.eqb_spec (Method r) "POST") as [Hm|Hm]; cbn [negb];
    [|exists []; split; [symmetry; apply List.app_nil_r | auto]].
  destruct (Body r) as [prompt|] eqn:Hb;
    [|exists []; split; [symmetry; apply List.app_nil_r | auto]].
  destruct (catalog (db w)) as [c|e] eqn:Hc.
  - unfold bind at 1. rewrite (GetSchema_run _ _ Hc), schemaLoop_schemaOf.
    unfold bind at 1, NaturalLanguageToSQL, bind at 1, emit. cbn [db trace logged].
    destruct (GenerateContent _ _ _ _) as [resp|e]; [destruct (nilContent resp)|].
    + exists [Introspected schemaQuery; Asked (queryInput (schemaOf c) prompt)].
      split; [cbn [snd ret trace]; now rewrite <- !List.app_assoc|].
      do 2 right. left. eauto.
    + unfold ret at 1.
      destruct (splitChart _ _) as [execSQL chartType].
      destruct (IsQuerySafe execSQL) eqn:Hsafe; cbn [negb].
      * unfold bind at 1, DB_Query, bind at 1, emit. cbn [db trace].
        exists [Introspected schemaQuery;
                Asked (queryInput (schemaOf c) prompt); Queried execSQL].
        split; [|do 3 right; eauto].
        destruct (run execSQL (db w)) as [[s rows]|e]; cbn [snd ret trace];
          now rewrite <- !List.app_assoc.
      * exists [Introspected schemaQuery; Asked (queryInput (schemaOf c) prompt)].
        split; [cbn [snd ret trace]; now rewrite <- !List.app_assoc|].
        do 2 right. left. eauto.
    + exists [Introspected schemaQuery; Asked (queryInput (schemaOf c) prompt)].
      split; [cbn [snd ret trace]; now rewrite <- !List.app_assoc|].
      do 2 right. left. eauto.
  - unfold bind at 1. rewrite (GetSchema_down _ _ Hc).
    exists [Introspected schemaQuery]. split; [reflexivity | auto].
Qed.

End Handler.

Lemma upperByte_idem (c : ascii) : upperByte (upperByte c) = upperByte c.
Proof. destruct c as [[] [] [] [] [] [] [] []]; reflexivity. Qed.

Lemma ToUpper_idem (s : string) : ToUpper (ToUpper s) = ToUpper s.
Proof.
  induction s as [|c s IH]; simpl; [reflexivity|].
  now rewrite upperByte_idem, IH.
Qed.

(** X10. The verdict of the filter passes to the parts of a text and does
    not depend on letter case: a text that is safe has only safe parts
    (so what [query] cuts off before the chart marker is safe when the
    whole generated text is), and upper-casing a text keeps its verdict. *)
Theorem IsQuerySafe_parts (q part : string) :
  occurs part q ->
  (IsQuerySafe q = true -> IsQuerySafe part = true)
  /\ IsQuerySafe (ToUpper q) = IsQuerySafe q.
Proof.
  intros (pre & post & ->). split.
  - intros Hsafe. unfold IsQuerySafe in *.
    destruct (scan (ToUpper part) forbidden) eqn:Hpart; [reflexivity|].
    apply scan_false in Hpart as (word & Hin & a & b & Hocc).
    assert (scan (ToUpper (pre +:+ part +:+ post)) forbidden = false) as Hfalse.
    { apply scan_false. exists word. split; [exact Hin|].
      exists (ToUpper pre +:+ a), (b +:+ ToUpper post).
      rewrite !ToUpper_app, Hocc, !app_assoc. reflexivity. }
    congruence.
  - unfold IsQuerySafe. now rewrite ToUpper_idem.
Qed.

Lemma IsQuerySafe_parts_sample :
  (IsQuerySafe "SELECT city FROM restaurants -- CHART: bar" = true ->
   IsQuerySafe "SELECT city FROM restaurants " = true)
  /\ IsQuerySafe (ToUpper "SELECT city FROM restaurants -- CHART: bar") =
     IsQuerySafe "SELECT city FROM restaurants -- CHART: bar".
Proof.
  apply (IsQuerySafe_parts "SELECT city FROM restaurants -- CHART: bar"
           "SELECT city FROM restaurants ").
  now exists "", "-- CHART: bar".
Defined.

(** What stands behind the marker is neither checked nor run. *)
Example query_directive_unchecked :
  let g := Samples.says "SELECT 1 -- CHART: bar; DROP TABLE restaurants" in
  let w := Samples.start [Samples.restaurants] Samples.noRows in
  (@query Samples.shop g (Samples.post "show") w).1 =
    QueryJSON "SELECT 1 -- CHART: bar; DROP TABLE restaurants" [] true
      "bar; DROP TABLE restaurants"
  /\ last (trace (@query Samples.shop g (Samples.post "show") w).2) =
       Some (Queried "SELECT 1 ").
Proof. split; reflexivity. Qed.

End QueryFacts.

(** ** The rows of a reply *)

Module RowFacts.
Import Strings database web Introspection Errors Exports.

Lemma fillMap_other {V} (m : gmap string V) (cols : list string) (vals : list V)
    (k : string) :
  k ∉ cols -> fillMap m cols vals !! k = m !! k.
Proof.
  revert m vals. induction cols as [|c cols IH]; intros m vals Hk; [reflexivity|].
  apply not_elem_of_cons in Hk as [Hne Hk].
  destruct vals as [|v vals]; [reflexivity|]. cbn [fillMap].
  rewrite IH by exact Hk. now apply lookup_insert_ne.
Qed.

(** The value under a column name is the value of the last column of that
    name. *)
Lemma fillMap_last {V} (m : gmap string V) (cols : list string) (vals : list V)
    (i : nat) (k : string) (v : V) :
  cols !! i = Some k -> vals !! i = Some v -> k ∉ drop (S i) cols ->
  fillMap m cols vals !! k = Some v.
Proof.
  revert m vals i. induction cols as [|c cols IH]; intros m vals i Hc Hv Hlast;
    [discriminate|].
  destruct vals as [|v0 vals]; [discriminate|]. cbn [fillMap].
  destruct i as [|i].
  - injection Hc as ->. injection Hv as ->. simpl in Hlast.
    rewrite fillMap_other by exact Hlast. apply lookup_insert_eq.
  - now apply (IH _ _ i).
Qed.

(** X11. The rows in a reply of [query] are those of the cursor that
    scanned, in order, each as a map from the column names: a name that
    is no column is no key, and under a column name stands the value of
    the last column of that name ([nil] when the scan stored none), so
    columns that share a name fall into one key. *)
Theorem materialize_rows (cols : list string) (next : list Scan) :
  length (materialize cols next) = length (scanned next)
  /\ forall j row vals,
       materialize cols next !! j = Some row -> scanned next !! j = Some vals ->
       (forall k, k ∉ cols -> row !! k = None)
       /\ (forall i k, cols !! i = Some k -> k ∉ drop (S i) cols ->
             row !! k = Some (default Nil (vals !! i))).
Proof.
  rewrite materialize_scanned. split; [now rewrite length_fmap|].
  intros j row vals Hrow Hvals.
  rewrite list_lookup_fmap, Hvals in Hrow. injection Hrow as <-. split.
  - intros k Hk. now rewrite fillMap_other.
  - intros i k Hi Hlast. apply (fillMap_last _ _ _ i); [exact Hi| |exact Hlast].
    apply slots_lookup. now apply lookup_lt_Some in Hi.
Qed.

Example materialize_shared_name :
  materialize ["id"; "name"; "id"] [Scanned [Int64 1; Str "Maido"; Int64 7]] =
    [ <["id" := Int64 7]> (<["name" := Str "Maido"]> ∅) ].
Proof. vm_compute. reflexivity. Qed.

Lemma materializeText_scanned (cols : list string) (next : list Scan) :
  materializeText cols next =
  (fun vals => fillMap ∅ cols (map Sprintv (slots cols vals))) <$> scanned next.
Proof.
  induction next as [|[vals|e partial] next IH]; simpl;
    [reflexivity | now rewrite IH | exact IH].
Qed.

Section Preview.
Context `{Backend}.

(** X12. The preview data of a table are the rows of [SELECT * FROM
    table LIMIT 10] that scanned, in order, each value as the text [%v]
    gives for it: a preview holds no null, NULL stands in it as the text
    [<nil>] (where the CSV export has the empty field).  The handler
    itself sets no bound on the number of rows. *)
Theorem fetchingTableData_rows (tableName : string) (w : World) (s : Store)
    (rows : Rows) :
  run ("SELECT * FROM " +:+ tableName +:+ " LIMIT 10") (db w) = Ok (s, rows) ->
  exists data,
    (fetchingTableData tableName w).1 = Ok data /\
    length data = length (scanned (Next rows)) /\
    forall j row vals,
      data !! j = Some row -> scanned (Next rows) !! j = Some vals ->
      forall i k, Columns rows !! i = Some k -> k ∉ drop (S i) (Columns rows) ->
        row !! k = Some (Sprintv (default Nil (vals !! i))) /\
        (default Nil (vals !! i) = Nil -> row !! k = Some "<nil>").
Proof.
  intros Hrun. unfold fetchingTableData, bind at 1, DB_Query, bind at 1, emit.
  cbn [db trace]. rewrite Hrun. cbn [fst ret].
  exists (materializeText (Columns rows) (Next rows)). split; [reflexivity|].
  rewrite materializeText_scanned. split; [now rewrite length_fmap|].
  intros j row vals Hrow Hvals i k Hi Hlast.
  rewrite list_lookup_fmap, Hvals in Hrow. injection Hrow as <-.
  assert (fillMap ∅ (Columns rows) (map Sprintv (slots (Columns rows) vals)) !! k =
          Some (Sprintv (default Nil (vals !! i)))) as Hk.
  { apply (fillMap_last _ _ _ i); [exact Hi| |exact Hlast].
    change (map ?f ?l) with (f <$> l).
    rewrite list_lookup_fmap, slots_lookup; [reflexivity|].
    now apply lookup_lt_Some in Hi. }
  split; [exact Hk|]. intros Hnil. now rewrite Hk, Hnil.
Qed.

End Preview.

Lemma fetchingTableData_rows_sample :
  let w := Samples.start [Samples.restaurants] Exports.withNull in
  exists data,
    (@fetchingTableData Samples.shop "restaurants" w).1 = Ok data /\
    length data = length (scanned (Next Exports.withNull)) /\
    forall j row vals,
      data !! j = Some row -> scanned (Next Exports.withNull) !! j = Some vals ->
      forall i k, Columns Exports.withNull !! i = Some k ->
        k ∉ drop (S i) (Columns Exports.withNull) ->
        row !! k = Some (Sprintv (default Nil (vals !! i))) /\
        (default Nil (vals !! i) = Nil -> row !! k = Some "<nil>").
Proof.
  intros w.
  exact (@fetchingTableData_rows Samples.shop "restaurants" w (db w)
           Exports.withNull eq_refl).
Defined.

Example fetchingTableData_null :
  (@fetchingTableData Samples.shop "restaurants"
     (Samples.start [Samples.restaurants] Exports.withNull)).1 =
    Ok [ <["id" := "1"]> (<["address" := "<nil>"]> ∅);
         <["id" := "2"]> (<["address" := "Av. La Mar 770"]> ∅) ].
Proof. vm_compute. reflexivity. Qed.

(** *** The records of the CSV exports *)

Lemma csvRecord_length (columns : list Value) :
  length (csvRecord columns) = length columns.
Proof. unfold csvRecord. apply length_map. Qed.

Lemma zipRows_width (cols : list string) (next : list Scan) (record : list string) :
  record ∈ zipRows cols next -> length record = length cols.
Proof.
  induction next as [|[vals|e partial] next IH]; simpl; [intros Hin; inversion Hin| |];
    (intros [->|Hin]%elem_of_cons; [now rewrite csvRecord_length, slots_length | auto]).
Qed.

Lemma csvRows_width (cols : list string) (next : list Scan) (record : list string) :
  record ∈ csvRows cols next -> length record = length cols.
Proof.
  induction next as [|[vals|e partial] next IH]; simpl;
    [intros Hin; inversion Hin | | exact IH].
  intros [->|Hin]%elem_of_cons; [now rewrite csvRecord_length, slots_length | auto].
Qed.

(** X13. Every record of an export has one field per column of the
    header, so the file is rectangular.  [downloadCSV] writes a record
    for each row that scanned and drops the others; [downloadZip] writes
    a record for every row of the cursor, also for one whose scan failed
    (with empty fields where nothing was stored). *)
Theorem csv_records_shape (cols : list string) (next : list Scan) :
  (forall record, record ∈ csvRows cols next -> length record = length cols)
  /\ (forall record, record ∈ zipRows cols next -> length record = length cols)
  /\ length (csvRows cols next) = length (scanned next)
  /\ length (zipRows cols next) = length next.
Proof.
  split; [intros record; apply csvRows_width|].
  split; [intros record; apply zipRows_width|].
  induction next as [|[vals|e partial] next [IH1 IH2]]; simpl; auto.
Qed.

Example zipRows_failed_scan :
  csvRows ["id"; "name"] [Scanned [Int64 1; Str "Maido"]; ScanFailed "bad" [Int64 2]] =
    [["1"; "Maido"]]
  /\ zipRows ["id"; "name"] [Scanned [Int64 1; Str "Maido"]; ScanFailed "bad" [Int64 2]] =
    [["1"; "Maido"]; ["2"; ""]].
Proof. split; reflexivity. Qed.

End RowFacts.

(** ** The download and listing handlers *)

Module Downloads.
Import Strings database web StringFacts Introspection Errors Exports Schema RowFacts.

Lemma selectTables_nil (c : Catalog) : selectTables c = [] <-> public c = [].
Proof.
  destruct (selectTables_names c) as [Hperm _]. split; intros Hnil.
  - rewrite Hnil in Hperm. apply Permutation_nil_l in Hperm.
    symmetry in Hperm. now apply map_eq_nil in Hperm.
  - rewrite Hnil in Hperm. now apply Permutation_nil_r in Hperm.
Qed.

(** The first name of the list is the least public name. *)
Lemma selectTables_head (c : Catalog) (table0 : string) (tables : list string) :
  selectTables c = table0 :: tables ->
  table0 ∈ map table_name (public c) /\
  forall name, name ∈ map table_name (public c) -> String.le table0 name.
Proof.
  intros Hsel. destruct (selectTables_names c) as [Hperm Hsorted].
  rewrite Hsel in Hperm, Hsorted. split.
  - rewrite <- Hperm. now left.
  - intros name Hname. rewrite <- Hperm in Hname.
    apply StronglySorted_cons in Hsorted as [Hall _].
    apply elem_of_cons in Hname as [->|Hname]; [reflexivity|].
    rewrite Forall_forall in Hall. now apply Hall.
Qed.

(** The records of a cursor in [downloadCSV] (a row that did not scan has
    none) and in [downloadZip] (every row has one), and the rows of a
    preview. *)
Definition csvRecords (rows : Rows) : list (list string) :=
  (fun vals => csvRecord (slots (Columns rows) vals)) <$> scanned (Next rows).

Definition zipRecords (rows : Rows) : list (list string) :=
  (fun step => csvRecord (slots (Columns rows) (stored step))) <$> Next rows.

Definition previewRows (rows : Rows) : list (gmap string string) :=
  (fun vals => fillMap ∅ (Columns rows) (map Sprintv (slots (Columns rows) vals)))
    <$> scanned (Next rows).

Section Handlers.
Context `{Backend}.

(** X14. Without a parameter [table], [downloadCSV] exports the public
    table whose name comes first in name order: it issues [SELECT * FROM]
    that table; when the store returns a cursor the answer is the file
    named after the table, with the column names as header and one record
    for each row of the cursor that scanned, in order; when the store
    rejects the statement the answer is [Error querying table].  When the
    catalog cannot be read or holds no public table the answer is [No
    table specified], and no table is read. *)
Theorem downloadCSV_default (r : Request unit) (w : World) :
  Table r = "" ->
  (forall e, catalog (db w) = Err e ->
     downloadCSV r w =
       (Error "No table specified" 400, logged w [Introspected tablesQuery]))
  /\ (forall c, catalog (db w) = Ok c -> public c = [] ->
        downloadCSV r w =
          (Error "No table specified" 400, logged w [Introspected tablesQuery]))
  /\ (forall c, catalog (db w) = Ok c -> public c <> [] ->
        exists table0,
          table0 ∈ map table_name (public c) /\
          (forall name, name ∈ map table_name (public c) -> String.le table0 name) /\
          downloadCSV r w =
            match run (selectAll table0) (db w) with
            | Ok (s, rows) =>
                (CSVFile (csvName table0) (Columns rows :: csvRecords rows),
                 {| db := s;
                    trace := trace w ++ [Introspected tablesQuery;
                                          Queried (selectAll table0)] |})
            | Err _ =>
                (Error "Error querying table" 500,
                 logged w [Introspected tablesQuery; Queried (selectAll table0)])
            end).
Proof.
  intros Htable. split; [|split].
  - intros e Hc. unfold downloadCSV. rewrite Htable, String.eqb_refl.
    unfold bind at 1 2, GetTables, bind at 1, emit.
    cbn [db trace]. rewrite Hc. reflexivity.
  - intros c Hc Hnone. rewrite (downloadCSV_run r w c Htable Hc).
    apply selectTables_nil in Hnone. now rewrite Hnone.
  - intros c Hc Hsome. rewrite (downloadCSV_run r w c Htable Hc).
    destruct (selectTables c) as [|table0 tables] eqn:Hsel.
    { now apply selectTables_nil in Hsel. }
    destruct (selectTables_head c table0 tables Hsel) as [Hin Hleast].
    exists table0. split; [exact Hin|]. split; [exact Hleast|].
    destruct (run (selectAll table0) (db w)) as [[s rows]|e]; [|reflexivity].
    unfold csvRecords. now rewrite csvRows_scanned.
Qed.

Lemma reads_none (stmt : string -> string) (tables : list string) (s : Store) :
  (forall t, t ∈ tables -> forall s, exists e, run (stmt t) s = Err e) ->
  reads stmt tables s = [].
Proof.
  revert s. induction tables as [|t tables IH]; intros s Hnone; [reflexivity|].
  cbn [reads]. destruct (Hnone t ltac:(now left) s) as [e ->].
  apply IH. intros t' Ht'. apply Hnone. now right.
Qed.

(** X15. On a readable catalog [downloadZip] always answers with an
    archive: it issues [SELECT * FROM] every public table once, in name
    order; the entries of the archive are the exports of the tables for
    which the store returned a cursor, in that order, each named after
    its table and holding the column names and one record for every row
    of its cursor; a table whose statement the store rejects is left out
    without a word, down to an empty archive. *)
Theorem downloadZip_archive (r : Request unit) (w : World) (c : Catalog) :
  catalog (db w) = Ok c ->
  (downloadZip r w).1 =
    ZipFile ((fun read => (csvName read.1, Columns read.2 :: zipRecords read.2))
               <$> reads selectAll (selectTables c) (db w))
  /\ trace (downloadZip r w).2 =
       trace w ++ Introspected tablesQuery ::
                  map (fun t => Queried (selectAll t)) (selectTables c)
  /\ ((forall t, t ∈ selectTables c -> forall s, exists e, run (selectAll t) s = Err e) ->
      (downloadZip r w).1 = ZipFile []).
Proof.
  intros Hc. destruct (downloadZip_run r w c Hc) as [Hreply Htrace].
  assert ((downloadZip r w).1 =
          ZipFile ((fun read => (csvName read.1, Columns read.2 :: zipRecords read.2))
                     <$> reads selectAll (selectTables c) (db w))) as Hentries.
  { rewrite Hreply. f_equal. apply list_fmap_ext. intros _ [t rows] _.
    unfold zipEntry, zipRecords. now rewrite zipRows_stored. }
  split; [exact Hentries|]. split; [exact Htrace|].
  intros Hnone. now rewrite Hentries, reads_none.
Qed.

(** *** [listTables] *)

Record TableInfo : Type := { Name : string; Data : list (gmap string string) }.

(** What [listTables] writes: an error, or the JSON list. *)
Inductive ListReply : Type :=
| ListError (msg : string) (code : Z)
| TablesJSON (result : list TableInfo).

(** The [for _, tableName := range tables] loop of [listTables]. *)
Fixpoint listLoop (tables : list string) : M (list TableInfo) :=
  match tables with
  | [] => ret []
  | tableName :: tables' =>
      do data <- fetchingTableData tableName;
      match data with
      | Err _ => listLoop tables' (* Skip tables with errors *)
      | Ok data =>
          do result <- listLoop tables';
          ret ({| Name := tableName; Data := data |} :: result)
      end
  end.

Definition listTables (r : Request unit) : M ListReply :=
  do tables <- GetTables;
  match tables with
  | Err _ => ret (ListError "Error fetching tables" 500)
  | Ok tables =>
      do result <- listLoop tables;
      ret (TablesJSON result)
  end.

Definition selectPreview (tableName : string) : string :=
  "SELECT * FROM " +:+ tableName +:+ " LIMIT 10".

(** [listLoop], call by call. *)
Lemma listLoop_run (tables : list string) (w : World) :
  exists w',
    listLoop tables w =
      ((fun read => {| Name := read.1; Data := previewRows read.2 |})
         <$> reads selectPreview tables (db w), w') /\
    trace w' = trace w ++ map (fun t => Queried (selectPreview t)) tables.
Proof.
  revert w. induction tables as [|t tables IH]; intros w.
  - exists w. cbn. now rewrite List.app_nil_r.
  - cbn [listLoop reads]. unfold bind at 1, fetchingTableData, bind at 1, DB_Query,
      bind at 1, emit. cbn [db trace]. fold (selectPreview t).
    destruct (run (selectPreview t) (db w)) as [[s rows]|e].
    + unfold ret at 1. unfold bind at 1.
      match goal with |- context [listLoop tables ?w1] =>
        destruct (IH w1) as (w' & -> & Htrace)
      end.
      exists w'. cbn [db trace] in Htrace.
      split; [|rewrite Htrace, <- List.app_assoc; reflexivity].
      unfold ret. cbn [fmap list_fmap fst snd db]. unfold previewRows.
      now rewrite materializeText_scanned.
    + unfold ret at 1.
      match goal with |- context [listLoop tables ?w1] =>
        destruct (IH w1) as (w' & -> & Htrace)
      end.
      exists w'. split; [reflexivity|]. cbn [db trace] in Htrace.
      rewrite Htrace, <- List.app_assoc. reflexivity.
Qed.

(** X16. [listTables] answers [Error fetching tables] when the catalog
    cannot be read, and reads no table then.  Otherwise it answers with a
    list: it asks for the preview of every public table once, in name
    order, and lists the tables for which the store returned a cursor, in
    that order, each with the rows of its cursor that scanned, rendered
    as texts; a table whose preview statement the store rejects is
    skipped. *)
Theorem listTables_reply (r : Request unit) (w : World) :
  (forall e, catalog (db w) = Err e ->
     listTables r w =
       (ListError "Error fetching tables" 500, logged w [Introspected tablesQuery]))
  /\ (forall c, catalog (db w) = Ok c ->
        (listTables r w).1 =
          TablesJSON ((fun read => {| Name := read.1; Data := previewRows read.2 |})
                        <$> reads selectPreview (selectTables c) (db w))
        /\ trace (listTables r w).2 =
             trace w ++ Introspected tablesQuery ::
                        map (fun t => Queried (selectPreview t)) (selectTables c)).
Proof.
  unfold listTables. split.
  - intros e Hc. unfold bind at 1, GetTables, bind at 1, emit.
    cbn [db trace]. rewrite Hc. reflexivity.
  - intros c Hc. unfold bind at 1 3.
    rewrite (GetTables_run _ _ Hc), tablesLoop_Ok. cbn [app]. unfold bind.
    destruct (listLoop_run (selectTables c) (logged w [Introspected tablesQuery]))
      as (w' & Hrun & Htrace).
    cbn [db logged] in Hrun. rewrite Hrun. cbn [fst snd ret]. split; [reflexivity|].
    rewrite Htrace. cbn [logged trace]. now rewrite <- List.app_assoc.
Qed.

End Handlers.

(** A catalog of three relations, declared in an order that is not the
    order of their names, on a store that lets [reviews] not be read. *)
Definition threeTables : Catalog := [Samples.reviews; Samples.audit; Samples.restaurants].

Definition guarded : @World Samples.shop :=
  Samples.startDenying threeTables withNull
    [selectAll "reviews"; selectPreview "reviews"].

Lemma downloadCSV_default_sample :
  let r := get "" in
  let w := Samples.start threeTables withNull in
  (forall e, @catalog Samples.shop (db w) = Err e ->
     @downloadCSV Samples.shop r w =
       (Error "No table specified" 400, logged w [Introspected tablesQuery]))
  /\ (forall c, @catalog Samples.shop (db w) = Ok c -> public c = [] ->
        @downloadCSV Samples.shop r w =
          (Error "No table specified" 400, logged w [Introspected tablesQuery]))
  /\ (forall c, @catalog Samples.shop (db w) = Ok c -> public c <> [] ->
        exists table0,
          table0 ∈ map table_name (public c) /\
          (forall name, name ∈ map table_name (public c) -> String.le table0 name) /\
          @downloadCSV Samples.shop r w =
            match @run Samples.shop (selectAll table0) (db w) with
            | Ok (s, rows) =>
                (CSVFile (csvName table0) (Columns rows :: csvRecords rows),
                 {| db := s;
                    trace := trace w ++ [Introspected tablesQuery;
                                          Queried (selectAll table0)] |})
            | Err _ =>
                (Error "Error querying table" 500,
                 logged w [Introspected tablesQuery; Queried (selectAll table0)])
            end).
Proof.
  intros r w. exact (@downloadCSV_default Samples.shop r w eq_refl).
Defined.

Example downloadCSV_first_by_name :
  (@downloadCSV Samples.shop (get "") (Samples.start threeTables withNull)).1 =
    CSVFile "restaurants.csv" [["id"; "address"]; ["1"; ""]; ["2"; "Av. La Mar 770"]].
Proof. reflexivity. Qed.

Example downloadCSV_no_table :
  (@downloadCSV Samples.shop (get "")
     (Samples.start [Samples.audit] Samples.noRows)).1 =
    Error "No table specified" 400.
Proof. reflexivity. Qed.

Example downloadCSV_rejected :
  (@downloadCSV Samples.shop (get "reviews") guarded).1 =
    Error "Error querying table" 500.
Proof. reflexivity. Qed.

(** The parameter goes into the statement as it is. *)
Example downloadCSV_parameter :
  trace (@downloadCSV Samples.shop (get "reviews; DROP TABLE reviews")
           (Samples.start [Samples.reviews] Samples.noRows)).2 =
    [Queried "SELECT * FROM reviews; DROP TABLE reviews"].
Proof. reflexivity. Qed.

(** X15 on the sample store that rejects the statement for [reviews]:
    both public tables are asked for, the archive holds [restaurants]
    alone. *)
Lemma downloadZip_archive_sample :
  (@downloadZip Samples.shop (get "") guarded).1 =
    ZipFile ((fun read => (csvName read.1, Columns read.2 :: zipRecords read.2))
               <$> [("restaurants", withNull)])
  /\ trace (@downloadZip Samples.shop (get "") guarded).2 =
       trace guarded ++ Introspected tablesQuery ::
         map (fun t => Queried (selectAll t)) ["restaurants"; "reviews"]
  /\ ((forall t, t ∈ selectTables threeTables ->
        forall s, exists e, @run Samples.shop (selectAll t) s = Err e) ->
      (@downloadZip Samples.shop (get "") guarded).1 = ZipFile []).
Proof. exact (@downloadZip_archive Samples.shop (get "") guarded threeTables eq_refl). Defined.

Example downloadZip_entries :
  (@downloadZip Samples.shop (get "") guarded).1 =
    ZipFile [("restaurants.csv", [["id"; "address"]; ["1"; ""]; ["2"; "Av. La Mar 770"]])]
  /\ (@downloadZip Samples.shop (get "") (Samples.start threeTables withNull)).1 =
     ZipFile [("restaurants.csv", [["id"; "address"]; ["1"; ""]; ["2"; "Av. La Mar 770"]]);
              ("reviews.csv", [["id"; "address"]; ["1"; ""]; ["2"; "Av. La Mar 770"]])].
Proof. split; reflexivity. Qed.

(** X16 on the same store. *)
Lemma listTables_reply_sample :
  (forall e, @catalog Samples.shop (db guarded) = Err e ->
     @listTables Samples.shop (get "") guarded =
       (ListError "Error fetching tables" 500, logged guarded [Introspected tablesQuery]))
  /\ (forall c, @catalog Samples.shop (db guarded) = Ok c ->
        (@listTables Samples.shop (get "") guarded).1 =
          TablesJSON ((fun read => {| Name := read.1; Data := previewRows read.2 |})
                        <$> @reads Samples.shop selectPreview (selectTables c) (db guarded))
        /\ trace (@listTables Samples.shop (get "") guarded).2 =
             trace guarded ++ Introspected tablesQuery ::
               map (fun t => Queried (selectPreview t)) (selectTables c)).
Proof. exact (@listTables_reply Samples.shop (get "") guarded). Defined.

Example listTables_names :
  match (@listTables Samples.shop (get "") guarded).1 with
  | TablesJSON result => map Name result = ["restaurants"]
  | _ => False
  end
  /\ match (@listTables Samples.shop (get "") (Samples.start threeTables withNull)).1 with
     | TablesJSON result => map Name result = ["restaurants"; "reviews"]
     | _ => False
     end.
Proof. split; reflexivity. Qed.

End Downloads.

(** ** A row of the catalog that does not scan *)

Module IntrospectionFacts.
Import Strings database Schema.

(** X17. The loops of [GetSchema] and [GetTables] stop at the first row
    that fails to scan and return its error: no text and no list comes
    back then, whatever the rows before and behind it. *)
Theorem introspection_scan_error (e : string)
    (before : list (string * string * string))
    (rest : list (result (string * string * string)))
    (names : list string) (others : list (result string)) (b cur : string)
    (acc : list string) :
  schemaLoop (map Ok before ++ Err e :: rest) b cur = Err e
  /\ tablesLoop (map Ok names ++ Err e :: others) acc = Err e.
Proof.
  split.
  - revert b cur. induction before as [|[[t cn] dt] before IH]; intros b cur.
    + reflexivity.
    + cbn [map app]. rewrite schemaLoop_row. destruct (String.eqb t cur); apply IH.
  - revert acc. induction names as [|n names IH]; intros acc; [reflexivity|].
    cbn [map app tablesLoop]. apply IH.
Qed.

End IntrospectionFacts.
